(** * stel::Event / stel::EventBus (event.hpp): a sequential model

    The header defines three classes:
    - [Event<Ts...>]: a copy-on-write list of subscriber slots and a
      counter of subscriber ids;
    - [Event<Ts...>::Subscription]: a move-only token holding a
      [weak_ptr] to its event and the id of its slot;
    - [EventBus<Ts...>]: a map from topic strings to shared events.

    The model below follows the member functions statement by statement.
    What is modelled is the behaviour of one thread of control: the mutex
    [write_mtx_] and the memory orders of the atomics do not appear, a
    [lock_guard] is a no-op and an atomic load or store is a plain read
    or write of the field. *)

From stdpp Require Import gmap strings list fin_maps sorting.

Local Open Scope Z_scope.

(** ** [std::size_t] *)

Module SizeT.
(** The width of [std::size_t] on the LP64 and LLP64 targets. *)
Definition bits : Z := 64.
Definition modulus : Z := 2 ^ bits.
(** Unsigned arithmetic is taken modulo [2 ^ bits]. *)
Definition wrap (z : Z) : Z := z mod modulus.
End SizeT.

(** ** Pointers

    Objects managed by [std::shared_ptr] live in a store and are named by
    the address of their control block, which is never reused.  A
    [shared_ptr] or [weak_ptr] is either null/empty ([None]) or such an
    address. *)

Abbreviation shared_ptr := (option nat).
Abbreviation weak_ptr := (option nat).

(** How a call of a [std::function<void(const Ts&...)>] ends. *)
Inductive outcome : Type := Returned | Threw.

(** The result of running a piece of code: a value, or an exception on
    its way to the caller. *)
Inductive result (A : Type) : Type :=
| Normal (a : A)
| Raised.
Arguments Normal {A} a.
Arguments Raised {A}.

(** ** The data members *)

(** [Event<Ts...>::Subscription]: [owner_] and [id_]. *)
Record Subscription : Type := mkSubscription {
  owner_ : weak_ptr;
  id_ : Z
}.

(** [using Slot = std::pair<std::size_t, Callback>] *)
Abbreviation Slot Callback := (Z * Callback)%type.
(** [using SlotVec = std::vector<Slot>] *)
Abbreviation SlotVec Callback := (list (Slot Callback)).

(** [Event<Ts...>]: the current snapshot [slots_], the counter
    [next_id_], and the [weak_this] member that comes with the base
    class [std::enable_shared_from_this] (empty until a [shared_ptr]
    takes ownership of the object). *)
Record Event (Callback : Type) : Type := mkEvent {
  slots_ : SlotVec Callback;
  next_id_ : Z;
  weak_this_ : weak_ptr
}.
Arguments mkEvent {Callback} _ _ _.
Arguments slots_ {Callback} _.
Arguments next_id_ {Callback} _.
Arguments weak_this_ {Callback} _.

(** ** The machine a member function of [Event] runs on *)

Section EventMachine.
Context {Args Callback World : Type}.

(** A [Callback] is an opaque callable.  [invoke cb args] is what a call
    [cb(args...)] does: it may read and change the event it was
    registered with (a callback is free to subscribe or unsubscribe on
    its own channel) and everything else it can reach ([World]), and it
    returns or throws. *)
Variable invoke :
  Callback -> Args -> Event Callback -> World -> Event Callback * World * outcome.

(** [self] is [*this]; [env] is the rest of the program state;
    [delivered] records, in order, every call of a slot made by
    [publish] (it is not program state: no code reads it). *)
Record Machine : Type := mkMachine {
  self : Event Callback;
  env : World;
  delivered : list (Slot Callback * Args)
}.

Definition M (A : Type) : Type := Machine -> result A * Machine.

Definition ret {A} (a : A) : M A := fun m => (Normal a, m).

(** Sequencing: an exception skips the rest. *)
Definition bind {A B} (c : M A) (k : A -> M B) : M B :=
  fun m =>
    match c m with
    | (Normal a, m') => k a m'
    | (Raised, m') => (Raised, m')
    end.

(** [try { body } catch (...) { }] *)
Definition try_catch_all (body : M unit) : M unit :=
  fun m =>
    match body m with
    | (Normal u, m') => (Normal u, m')
    | (Raised, m') => (Normal tt, m')
    end.

(** [slots_.load(...)]: the vector the shared pointer refers to.  A
    snapshot is never written to after it has been stored, so the value
    of the vector stands for the pointer. *)
Definition load_slots : M (SlotVec Callback) :=
  fun m => (Normal (slots_ (self m)), m).

(** [slots_.store(next, ...)] *)
Definition store_slots (next : SlotVec Callback) : M unit :=
  fun m =>
    (Normal tt,
     mkMachine (mkEvent next (next_id_ (self m)) (weak_this_ (self m)))
               (env m) (delivered m)).

(** [next_id_.fetch_add(d, ...)]: returns the old value. *)
Definition fetch_add_next_id (d : Z) : M Z :=
  fun m =>
    (Normal (next_id_ (self m)),
     mkMachine (mkEvent (slots_ (self m))
                        (SizeT.wrap (next_id_ (self m) + d))
                        (weak_this_ (self m)))
               (env m) (delivered m)).

(** [this->weak_from_this()] *)
Definition weak_from_this : M weak_ptr :=
  fun m => (Normal (weak_this_ (self m)), m).

(** [slot.second(args...)] *)
Definition call_slot (slot : Slot Callback) (args : Args) : M unit :=
  fun m =>
    let '(e', w', o) := invoke (snd slot) args (self m) (env m) in
    (match o with Returned => Normal tt | Threw => Raised end,
     mkMachine e' w' (delivered m ++ [(slot, args)])).

(** [for (auto& x : v) body] *)
Fixpoint for_each {A} (v : list A) (body : A -> M unit) : M unit :=
  match v with
  | [] => ret tt
  | x :: v' => bind (body x) (fun _ => for_each v' body)
  end.

End EventMachine.

Arguments Machine : clear implicits.
Arguments M : clear implicits.

Declare Scope event_scope.
Delimit Scope event_scope with event.
Notation "x <- c ;; k" := (bind c (fun x => k))
  (at level 100, c at next level, right associativity) : event_scope.
Notation "c ;; k" := (bind c (fun _ => k))
  (at level 100, right associativity) : event_scope.

(** ** The member functions of [Event] *)

Section EventMethods.
Context {Args Callback World : Type}.
Variable invoke :
  Callback -> Args -> Event Callback -> World -> Event Callback * World * outcome.

Local Abbreviation M := (M Args Callback World).

(** [Event() : slots_(std::make_shared<SlotVec>()), next_id_(1)] *)
Definition Event_new : Event Callback := mkEvent [] 1 None.

(** [Subscription subscribe(Callback cb)] *)
Definition Event_subscribe (cb : Callback) : M Subscription :=
  (id <- fetch_add_next_id 1 ;;
   curr <- load_slots ;;
   let next := curr ++ [(id, cb)] in
   store_slots next ;;
   owner <- weak_from_this ;;
   ret (mkSubscription owner id))%event.

(** One turn of the loop of [unsubscribe]:
    [if (sid == id) removed = true; else next->emplace_back(sid, fn);] *)
Definition unsubscribe_step (id : Z)
    (acc : SlotVec Callback * bool) (slot : Slot Callback) : SlotVec Callback * bool :=
  if fst slot =? id then (fst acc, true) else (fst acc ++ [slot], snd acc).

(** [bool unsubscribe(std::size_t id)] *)
Definition Event_unsubscribe (id : Z) : M bool :=
  (curr <- load_slots ;;
   let acc := fold_left (unsubscribe_step id) curr ([], false) in
   let next := fst acc in
   let removed := snd acc in
   (if removed then store_slots next else ret tt) ;;
   ret removed)%event.

(** [void publish(const Ts&... args) const] *)
Definition Event_publish (args : Args) : M unit :=
  (snapshot <- load_slots ;;
   for_each snapshot (fun slot => try_catch_all (call_slot invoke slot args)))%event.

(** [std::size_t subscriber_count() const noexcept]; the size of a
    vector is a [size_t], so that no reduction is needed. *)
Definition Event_subscriber_count : M Z :=
  (snapshot <- load_slots ;;
   ret (Z.of_nat (length snapshot)))%event.

(** [void clear()] *)
Definition Event_clear : M unit :=
  (let empty : SlotVec Callback := [] in
   store_slots empty)%event.

End EventMethods.

(** ** The store of shared objects *)

Section Store.
Context {Args Callback World : Type}.
Variable invoke :
  Callback -> Args -> Event Callback -> World -> Event Callback * World * outcome.

(** [objs]: the events that are alive, by address; [next_addr]: the next
    address [make_shared] hands out; [world]: what the callbacks act on;
    [deliveries]: the calls of slots made so far; [removals]: the calls of
    [Event::unsubscribe] made through subscription tokens so far (the last
    two are records of what ran, not program state). *)
Record Sys : Type := mkSys {
  objs : gmap nat (Event Callback);
  next_addr : nat;
  world : World;
  deliveries : list (Slot Callback * Args);
  removals : list (nat * Z)
}.

(** [std::make_shared<Event<Ts...>>()]: a new object, whose [weak_this]
    refers to itself. *)
Definition make_shared_Event (sys : Sys) : nat * Sys :=
  let a := next_addr sys in
  let new : Event Callback := Event_new in
  let ev := mkEvent (slots_ new) (next_id_ new) (Some a) in
  (a, mkSys (<[a := ev]> (objs sys)) (S a)
            (world sys) (deliveries sys) (removals sys)).

(** The last [shared_ptr] to the event at [a] goes away: [~Event()]. *)
Definition destroy_Event (a : nat) (sys : Sys) : Sys :=
  mkSys (delete a (objs sys)) (next_addr sys)
        (world sys) (deliveries sys) (removals sys).

(** [w.lock()]: the address and the object it keeps alive, or nothing
    when [w] is empty or has expired. *)
Definition weak_lock (w : weak_ptr) (sys : Sys) : option (nat * Event Callback) :=
  match w with
  | None => None
  | Some a =>
      match objs sys !! a with
      | Some ev => Some (a, ev)
      | None => None
      end
  end.

(** [ev->f(...)] for a member function [f] of the live event [ev] at
    address [a]. *)
Definition call_on {A} (a : nat) (ev : Event Callback)
    (f : M Args Callback World A) (sys : Sys) : result A * Sys :=
  let '(r, m) := f (mkMachine ev (world sys) (deliveries sys)) in
  (r, mkSys (<[a := self m]> (objs sys)) (next_addr sys)
            (env m) (delivered m) (removals sys)).

(** [p->f(...)] through a non-null [shared_ptr]; [None] stands for the
    undefined behaviour of going through a pointer to no object. *)
Definition call_via {A} (a : nat)
    (f : M Args Callback World A) (sys : Sys) : option (result A * Sys) :=
  match objs sys !! a with
  | Some ev => Some (call_on a ev f sys)
  | None => None
  end.

(** ** [Event<Ts...>::Subscription] *)

(** [bool unsubscribe()]; the token is returned next to the result
    because the call may write to its members. *)
Definition Subscription_unsubscribe (s : Subscription) (sys : Sys)
    : result bool * Subscription * Sys :=
  match weak_lock (owner_ s) sys with
  | None => (Normal false, s, sys)
  | Some (a, ev) =>
      if id_ s =? 0 then (Normal false, s, sys)
      else
        let sys1 := mkSys (objs sys) (next_addr sys) (world sys)
                          (deliveries sys) (removals sys ++ [(a, id_ s)]) in
        match call_on a ev (Event_unsubscribe (id_ s)) sys1 with
        | (Normal removed, sys2) => (Normal removed, mkSubscription None 0, sys2)
        | (Raised, sys2) => (Raised, s, sys2)
        end
  end.

(** [explicit operator bool() const noexcept] *)
Definition Subscription_bool (s : Subscription) : bool := negb (id_ s =? 0).

(** ** [EventBus<Ts...>] *)

(** The only data member read by the member functions is [channels_]. *)
Record EventBus : Type := mkEventBus {
  channels_ : gmap string shared_ptr
}.

(** A default-constructed bus. *)
Definition EventBus_new : EventBus := mkEventBus ∅.

(** [Subscription subscribe(const std::string& topic, Callback cb)] *)
Definition EventBus_subscribe (topic : string) (cb : Callback)
    (bus : EventBus) (sys : Sys) : option (result Subscription * EventBus * Sys) :=
  (* auto& ch = channels_[topic]; *)
  let chans1 :=
    match channels_ bus !! topic with
    | Some _ => channels_ bus
    | None => <[topic := None]> (channels_ bus)
    end in
  let ch : shared_ptr := default None (chans1 !! topic) in
  (* if (!ch) ch = std::make_shared<EventType>(); *)
  let '(a, chans2, sys2) :=
    match ch with
    | Some a => (a, chans1, sys)
    | None =>
        let '(a, sys') := make_shared_Event sys in
        (a, <[topic := Some a]> chans1, sys')
    end in
  (* return ch->subscribe(std::move(cb)); *)
  match call_via a (Event_subscribe cb) sys2 with
  | Some (r, sys3) => Some (r, mkEventBus chans2, sys3)
  | None => None
  end.

(** [void publish(const std::string& topic, const Ts&... args) const] *)
Definition EventBus_publish (topic : string) (args : Args)
    (bus : EventBus) (sys : Sys) : option (result unit * EventBus * Sys) :=
  let ch : shared_ptr :=
    match channels_ bus !! topic with
    | Some p => p
    | None => None
    end in
  match ch with
  | Some a =>
      match call_via a (Event_publish invoke args) sys with
      | Some (r, sys') => Some (r, bus, sys')
      | None => None
      end
  | None => Some (Normal tt, bus, sys)
  end.

(** [std::size_t subsriber_count(const std::string& topic) const] (the
    name is spelt as in the header) *)
Definition EventBus_subsriber_count (topic : string)
    (bus : EventBus) (sys : Sys) : option (result Z * EventBus * Sys) :=
  match channels_ bus !! topic with
  | None => Some (Normal 0, bus, sys)
  | Some None => None
  | Some (Some a) =>
      match call_via a Event_subscriber_count sys with
      | Some (r, sys') => Some (r, bus, sys')
      | None => None
      end
  end.

End Store.

Arguments Sys : clear implicits.

(** ** Sequences of calls *)

Section Runs.
Context {Args Callback World : Type}.
Variable invoke :
  Callback -> Args -> Event Callback -> World -> Event Callback * World * outcome.

(** The machine after the call of one slot, however the call ends. *)
Definition deliver_one (args : Args) (m : Machine Args Callback World)
    (slot : Slot Callback) : Machine Args Callback World :=
  snd (call_slot invoke slot args m).

(** Callbacks that have no access to the event: [f cb args] acts on the
    world only. *)
Definition external (f : Callback -> Args -> World -> World * outcome)
    (cb : Callback) (args : Args) (ev : Event Callback) (w : World)
    : Event Callback * World * outcome :=
  (ev, (f cb args w).1, (f cb args w).2).

(** The calls that change the subscriber list of one event. *)
Inductive op : Type :=
| OpSubscribe (cb : Callback)
| OpUnsubscribe (id : Z)
| OpClear.

(** One call; the value is the list of ids handed out by it. *)
Definition exec_op (o : op) : M Args Callback World (list Z) :=
  match o with
  | OpSubscribe cb => (s <- Event_subscribe cb ;; ret [id_ s])%event
  | OpUnsubscribe id => (_ <- Event_unsubscribe id ;; ret [])%event
  | OpClear => (Event_clear ;; ret [])%event
  end.

(** The calls one after the other; the value is the list of the ids
    handed out, in the order of the [subscribe] calls. *)
Fixpoint run_ops (ops : list op) : M Args Callback World (list Z) :=
  match ops with
  | [] => ret []
  | o :: ops' =>
      (ids <- exec_op o ;; ids' <- run_ops ops' ;; ret (ids ++ ids'))%event
  end.

(** The number of [subscribe] calls in a sequence. *)
Fixpoint subscribes (ops : list op) : nat :=
  match ops with
  | [] => 0%nat
  | OpSubscribe _ :: ops' => S (subscribes ops')
  | _ :: ops' => subscribes ops'
  end.

(** The values [next_id_] takes: [n], [n + 1], ... modulo [2 ^ 64]. *)
Fixpoint ids_from (n : Z) (count : nat) : list Z :=
  match count with
  | O => []
  | S c => n :: ids_from (SizeT.wrap (n + 1)) c
  end.

(** The calls made on a bus. *)
Inductive bus_op : Type :=
| BusSubscribe (topic : string) (cb : Callback)
| BusPublish (topic : string) (args : Args)
| BusCount (topic : string).

Definition exec_bus_op (o : bus_op) (bus : EventBus) (sys : Sys Args Callback World)
    : option (EventBus * Sys Args Callback World) :=
  match o with
  | BusSubscribe topic cb =>
      match EventBus_subscribe topic cb bus sys with
      | Some (_, bus', sys') => Some (bus', sys')
      | None => None
      end
  | BusPublish topic args =>
      match EventBus_publish invoke topic args bus sys with
      | Some (_, bus', sys') => Some (bus', sys')
      | None => None
      end
  | BusCount topic =>
      match EventBus_subsriber_count topic bus sys with
      | Some (_, bus', sys') => Some (bus', sys')
      | None => None
      end
  end.

Fixpoint run_bus (ops : list bus_op) (bus : EventBus) (sys : Sys Args Callback World)
    : option (EventBus * Sys Args Callback World) :=
  match ops with
  | [] => Some (bus, sys)
  | o :: ops' =>
      match exec_bus_op o bus sys with
      | Some (bus', sys') => run_bus ops' bus' sys'
      | None => None
      end
  end.

(** Every channel of the bus is a non-null pointer to a live event: the
    bus holds a [shared_ptr] to each of its events. *)
Definition bus_owns (bus : EventBus) (sys : Sys Args Callback World) : Prop :=
  ∀ topic p, channels_ bus !! topic = Some p →
             ∃ a, p = Some a ∧ is_Some (objs sys !! a).

(** The topics passed to [EventBus::subscribe] in a sequence. *)
Fixpoint subscribed_topics (ops : list bus_op) : list string :=
  match ops with
  | [] => []
  | BusSubscribe topic _ :: ops' => topic :: subscribed_topics ops'
  | _ :: ops' => subscribed_topics ops'
  end.

End Runs.

Arguments op : clear implicits.
Arguments bus_op : clear implicits.

(** ** Callbacks for the examples

    As in [main.cpp], a callback writes a line made of its name and of
    the value it received; [fails] makes it throw after writing. *)

Record Printer : Type := mkPrinter {
  label : string;
  fails : bool
}.

Definition Output : Type := list (string * Z).

Definition print (cb : Printer) (v : Z) (ev : Event Printer) (out : Output)
    : Event Printer * Output * outcome :=
  (ev, out ++ [(label cb, v)], if fails cb then Threw else Returned).

Definition cb_A : Printer := mkPrinter "A" false.
Definition cb_B : Printer := mkPrinter "B" false.
Definition cb_X : Printer := mkPrinter "X" true.

(** The first part of [main] on one thread: two subscribers, a publish,
    the first subscriber leaves, a publish. *)
Definition main_scenario : M Z Printer Output (bool * Z) :=
  (s1 <- Event_subscribe cb_A ;;
   s2 <- Event_subscribe cb_B ;;
   Event_publish print 1 ;;
   removed <- Event_unsubscribe (id_ s1) ;;
   Event_publish print 2 ;;
   n <- Event_subscriber_count ;;
   ret (removed, n))%event.

(** A machine with a new event, owned by a [shared_ptr], at address 0. *)
Definition fresh_machine : Machine Z Printer Output :=
  mkMachine (mkEvent [] 1 (Some 0%nat)) [] [].

(** An empty store. *)
Definition empty_sys : Sys Z Printer Output := mkSys ∅ 0%nat [] [] [].

(** An event is made and owned by one [shared_ptr], [cb_A] subscribes,
    and the owner lets go of the event while the token lives on. *)
Definition orphan_scenario : option (Subscription * Sys Z Printer Output) :=
  let '(a, sys1) := make_shared_Event empty_sys in
  match call_via a (Event_subscribe cb_A) sys1 with
  | Some (Normal s, sys2) => Some (s, destroy_Event a sys2)
  | _ => None
  end.

(** A callback that, besides printing, unsubscribes the entry [victim]
    of its own channel while [publish] is running. *)
Definition print_and_drop (victim : Z) (cb : Printer) (v : Z)
    (ev : Event Printer) (out : Output) : Event Printer * Output * outcome :=
  let m : Machine Z Printer Output := mkMachine ev out [] in
  (self (Event_unsubscribe victim m).2, out ++ [(label cb, v)],
   if fails cb then Threw else Returned).

(** An event with three subscribers, the second of which throws; the
    store that holds it at address 0; the token of its first subscriber. *)
Definition busy_machine : Machine Z Printer Output :=
  mkMachine (mkEvent [(1, cb_A); (2, cb_X); (3, cb_B)] 4 (Some 0%nat)) [] [].

Definition busy_sys : Sys Z Printer Output :=
  mkSys {[ 0%nat := self busy_machine ]} 1%nat [] [] [].

Definition token_A : Subscription := mkSubscription (Some 0%nat) 1.

(** The second part of [main], on one thread and with one argument: two
    subscribers on "cpu", one on "gpu", and some publishing. *)
Definition bus_calls : list (bus_op Z Printer) :=
  [BusSubscribe "cpu" cb_A; BusSubscribe "cpu" cb_B; BusSubscribe "gpu" cb_X;
   BusPublish "cpu" 5; BusPublish "unknown" 1; BusPublish "gpu" 6].

(** ** The first part of [main]

    [main] makes an event, subscribes A and B, lets two threads publish
    four values each, joins them, unsubscribes A and publishes 42.  The
    threads only call [publish]; [published] lists their eight calls in
    the order in which they happen when no two of them overlap. *)

(** [auto ev = ...; auto s1 = ev->subscribe(A); auto s2 = ev->subscribe(B);] *)
Definition main_setup
    : option (nat * Subscription * Subscription * Sys Z Printer Output) :=
  let '(ev, sys0) := make_shared_Event empty_sys in
  match call_via ev (Event_subscribe cb_A) sys0 with
  | Some (Normal s1, sys1) =>
      match call_via ev (Event_subscribe cb_B) sys1 with
      | Some (Normal s2, sys2) => Some (ev, s1, s2, sys2)
      | _ => None
      end
  | _ => None
  end.

(** [ev->publish(v)] for each [v] in turn. *)
Fixpoint publish_each (ev : nat) (published : list Z) (sys : Sys Z Printer Output)
    : option (Sys Z Printer Output) :=
  match published with
  | [] => Some sys
  | v :: rest =>
      match call_via ev (Event_publish print v) sys with
      | Some (_, sys') => publish_each ev rest sys'
      | None => None
      end
  end.

(** Up to [ev->publish(42); // Only B receives this]: the two tokens and
    the system at that point. *)
Definition main_event_part (published : list Z)
    : option (Subscription * Subscription * Sys Z Printer Output) :=
  match main_setup with
  | Some (ev, s1, s2, sys2) =>
      match publish_each ev published sys2 with
      | Some sys3 =>
          let '(_, s1', sys4) := Subscription_unsubscribe s1 sys3 in
          match call_via ev (Event_publish print 42) sys4 with
          | Some (_, sys5) => Some (s1', s2, sys5)
          | None => None
          end
      | None => None
      end
  | None => None
  end.

(** [print] as a callback that acts on the output only. *)
Definition say (cb : Printer) (v : Z) (out : Output) : Output * outcome :=
  (out ++ [(label cb, v)], if fails cb then Threw else Returned).

(** A store whose one event has used up all the values of its counter
    but the last: the counter is back at 0. *)
Definition wrapped_sys : Sys Z Printer Output :=
  mkSys {[ 0%nat := mkEvent [(SizeT.modulus - 1, cb_A)] 0 (Some 0%nat) ]}
        1%nat [] [] [].

(** Two tokens, of the first and of the third subscriber of
    [busy_machine], at the places 0 and 1. *)
Definition two_tokens : gmap nat Subscription :=
  {[ 0%nat := token_A; 1%nat := mkSubscription (Some 0%nat) 3 ]}.

(** Two subscribers on "cpu" and one on "gpu", as in [main]. *)
Definition cpu_gpu_calls : list (bus_op Z Printer) :=
  [BusSubscribe "cpu" cb_A; BusSubscribe "cpu" cb_B; BusSubscribe "gpu" cb_X].

(** ** The rest of [Subscription] *)

Section Tokens.
Context {Args Callback World : Type}.

(** [~Subscription() { unsubscribe(); }]: the value of [unsubscribe] is
    dropped.  (A destructor is [noexcept]: [Raised] would end the
    program.) *)
Definition Subscription_destroy (s : Subscription) (sys : Sys Args Callback World)
    : result unit * Sys Args Callback World :=
  match Subscription_unsubscribe s sys with
  | (Normal _, _, sys') => (Normal tt, sys')
  | (Raised, _, sys') => (Raised, sys')
  end.

(** [Subscription& operator=(Subscription&& other) noexcept].  The test
    [this != &other] compares objects, so the tokens are given by their
    places in a table [toks]; [None] stands for the use of a place that
    holds no token.  A moved-from [weak_ptr] is empty. *)
Definition Subscription_move_assign (this other : nat)
    (toks : gmap nat Subscription) (sys : Sys Args Callback World)
    : option (result unit * gmap nat Subscription * Sys Args Callback World) :=
  match toks !! this, toks !! other with
  | Some t, Some o =>
      if decide (this = other) then Some (Normal tt, toks, sys)
      else
        (* unsubscribe(); *)
        match Subscription_unsubscribe t sys with
        | (Normal _, _, sys') =>
            (* owner_ = std::move(other.owner_); id_ = other.id_; other.id_ = 0; *)
            Some (Normal tt,
                  <[other := mkSubscription None 0]>
                    (<[this := mkSubscription (owner_ o) (id_ o)]> toks),
                  sys')
        | (Raised, t', sys') => Some (Raised, <[this := t']> toks, sys')
        end
  | _, _ => None
  end.

(** Every live event sits below the next address [make_shared] hands
    out: a new event never takes the place of a live one. *)
Definition store_fresh (sys : Sys Args Callback World) : Prop :=
  ∀ a, is_Some (objs sys !! a) → (a < next_addr sys)%nat.

(** The number of [unsubscribe] calls of a sequence that return true
    when the sequence is run. *)
Fixpoint removed_in (ops : list (op Callback)) : M Args Callback World nat :=
  match ops with
  | [] => ret 0%nat
  | OpUnsubscribe id :: ops' =>
      (removed <- Event_unsubscribe id ;;
       n <- removed_in ops' ;;
       ret (if removed : bool then S n else n))%event
  | o :: ops' => (_ <- exec_op o ;; removed_in ops')%event
  end.

(** The counter is not 0; the ids of the entries grow along the vector,
    none is 0, and all are below the counter. *)
Definition ids_in_order (ev : Event Callback) : Prop :=
  0 < next_id_ ev ∧
  StronglySorted Z.lt (slots_ ev).*1 ∧
  Forall (λ x, 0 < x < next_id_ ev) (slots_ ev).*1.

(** The subscribers of a topic: the snapshot of its channel, or nothing
    when the bus has no channel for it. *)
Definition topic_slots (topic : string) (bus : EventBus)
    (sys : Sys Args Callback World) : SlotVec Callback :=
  match channels_ bus !! topic with
  | Some (Some a) =>
      match objs sys !! a with
      | Some ev => slots_ ev
      | None => []
      end
  | _ => []
  end.

(** A bus in good order: its channels are non-null pointers to live
    events that know their own address, no two topics share an event,
    and the store is as [store_fresh] says. *)
Definition bus_wf (bus : EventBus) (sys : Sys Args Callback World) : Prop :=
  store_fresh sys ∧
  (∀ topic p, channels_ bus !! topic = Some p →
              ∃ a ev, p = Some a ∧ objs sys !! a = Some ev ∧ weak_this_ ev = Some a) ∧
  (∀ t1 t2 a, channels_ bus !! t1 = Some (Some a) →
              channels_ bus !! t2 = Some (Some a) → t1 = t2).

(** The number of [subscribe] calls for a topic in a sequence. *)
Fixpoint subscribes_on (topic : string) (ops : list (bus_op Args Callback)) : nat :=
  match ops with
  | [] => 0%nat
  | BusSubscribe t _ :: ops' =>
      ((if decide (t = topic) then 1 else 0) + subscribes_on topic ops')%nat
  | _ :: ops' => subscribes_on topic ops'
  end.

End Tokens.

(** ** A subscriber that comes and goes *)

(** [count] rounds of [subscribe(cb)] followed by [unsubscribe] of the
    id that call returns, on an event whose counter is [n] at the start:
    the snapshot is never more than one entry longer than it was. *)
Fixpoint churn_ops {Callback : Type} (cb : Callback) (n : Z) (count : nat)
    : list (op Callback) :=
  match count with
  | O => []
  | S c => OpSubscribe cb :: OpUnsubscribe n :: churn_ops cb (SizeT.wrap (n + 1)) c
  end.

(** On a new event: A subscribes and stays, then B comes and goes
    [2 ^ 64 - 1] times, which takes the counter once around, back to 1. *)
Definition wrap_calls : list (op Printer) :=
  OpSubscribe cb_A :: churn_ops cb_B 2 (Z.to_nat (SizeT.modulus - 1)).



(** ** What each member function computes *)

Section EventFacts.
Context {Args Callback World : Type}.
Variable invoke :
  Callback -> Args -> Event Callback -> World -> Event Callback * World * outcome.

Local Abbreviation Machine := (Machine Args Callback World).

Lemma Event_subscribe_run (cb : Callback) (m : Machine) :
  Event_subscribe cb m =
  (Normal (mkSubscription (weak_this_ (self m)) (next_id_ (self m))),
   mkMachine (mkEvent (slots_ (self m) ++ [(next_id_ (self m), cb)])
                      (SizeT.wrap (next_id_ (self m) + 1))
                      (weak_this_ (self m)))
             (env m) (delivered m)).
Proof. reflexivity. Qed.

Lemma Event_clear_run (m : Machine) :
  Event_clear m =
  (Normal tt,
   mkMachine (mkEvent [] (next_id_ (self m)) (weak_this_ (self m)))
             (env m) (delivered m)).
Proof. reflexivity. Qed.

Lemma Event_subscriber_count_run (m : Machine) :
  Event_subscriber_count m = (Normal (Z.of_nat (length (slots_ (self m)))), m).
Proof. reflexivity. Qed.

(** The loop of [unsubscribe] keeps the slots with another id, in
    order, and reports whether it met the id. *)
Lemma unsubscribe_loop (id : Z) (l acc : SlotVec Callback) (b : bool) :
  fold_left (unsubscribe_step id) l (acc, b) =
  (acc ++ filter (λ s, s.1 ≠ id) l, b || bool_decide (id ∈ l.*1)).
Proof.
  revert acc b. induction l as [|s l IH]; intros acc b.
  - cbn. rewrite app_nil_r, orb_false_r. reflexivity.
  - cbn [fold_left]. unfold unsubscribe_step at 2. cbn [fst snd].
    destruct (Z.eqb_spec s.1 id) as [Heq|Hne].
    + rewrite IH. rewrite filter_cons_False by (intros H; apply H; exact Heq).
      rewrite (bool_decide_eq_true_2 (id ∈ (s :: l).*1))
        by (rewrite fmap_cons, Heq; left).
      rewrite orb_true_l, orb_true_r. reflexivity.
    + rewrite IH. rewrite filter_cons_True by exact Hne.
      rewrite <- app_assoc. cbn [app]. f_equal. f_equal.
      apply bool_decide_ext. rewrite fmap_cons, elem_of_cons.
      split; [intros Hin; right; exact Hin|].
      intros [Hid|Hin]; [congruence | exact Hin].
Qed.

Lemma filter_other_ids (id : Z) (l : SlotVec Callback) :
  id ∉ l.*1 → filter (λ s, s.1 ≠ id) l = l.
Proof.
  induction l as [|s l IH]; intros Hnotin; [reflexivity|].
  rewrite fmap_cons, not_elem_of_cons in Hnotin. destruct Hnotin as [Hne Hl].
  rewrite filter_cons_True by (intros Heq; apply Hne; symmetry; exact Heq).
  rewrite IH by exact Hl. reflexivity.
Qed.

Lemma filter_removes_id (id : Z) (l : SlotVec Callback) :
  id ∉ (filter (λ s, s.1 ≠ id) l).*1.
Proof.
  intros Hin. apply list_elem_of_fmap in Hin as [s [Hid Hs]].
  apply list_elem_of_filter in Hs as [Hne _]. apply Hne. symmetry. exact Hid.
Qed.

Lemma Event_unsubscribe_run (id : Z) (m : Machine) :
  Event_unsubscribe id m =
  if bool_decide (id ∈ (slots_ (self m)).*1)
  then (Normal true,
        mkMachine (mkEvent (filter (λ s, s.1 ≠ id) (slots_ (self m)))
                           (next_id_ (self m)) (weak_this_ (self m)))
                  (env m) (delivered m))
  else (Normal false, m).
Proof.
  unfold Event_unsubscribe, bind, load_slots. cbn [fst snd].
  rewrite unsubscribe_loop. cbn [fst snd app orb].
  destruct (bool_decide (id ∈ (slots_ (self m)).*1)); reflexivity.
Qed.

(** The loop of [publish] always runs to its end and returns normally;
    the machine it leaves is the one obtained by calling the slots one
    after the other. *)
Lemma publish_loop (args : Args) (l : SlotVec Callback) (m : Machine) :
  for_each l (λ slot, try_catch_all (call_slot invoke slot args)) m =
  (Normal tt, fold_left (deliver_one invoke args) l m).
Proof.
  revert m. induction l as [|s l IH]; intros m; [reflexivity|].
  cbn [for_each fold_left]. unfold bind at 1, try_catch_all at 1, deliver_one at 2.
  destruct (call_slot invoke s args m) as [[u|] m']; cbn [snd]; apply IH.
Qed.

Lemma Event_publish_run (args : Args) (m : Machine) :
  Event_publish invoke args m =
  (Normal tt, fold_left (deliver_one invoke args) (slots_ (self m)) m).
Proof. unfold Event_publish, bind, load_slots. apply publish_loop. Qed.

Lemma delivered_deliver_one (args : Args) (m : Machine) (s : Slot Callback) :
  delivered (deliver_one invoke args m s) = delivered m ++ [(s, args)].
Proof.
  unfold deliver_one, call_slot.
  destruct (invoke s.2 args (self m) (env m)) as [[e w] o]. reflexivity.
Qed.

Lemma delivered_fold (args : Args) (l : SlotVec Callback) (m : Machine) :
  delivered (fold_left (deliver_one invoke args) l m) =
  delivered m ++ map (λ s, (s, args)) l.
Proof.
  revert m. induction l as [|s l IH]; intros m; cbn [fold_left map].
  - rewrite app_nil_r. reflexivity.
  - rewrite IH, delivered_deliver_one, <- app_assoc. reflexivity.
Qed.

(** Callbacks that leave the event alone leave it alone in the loop. *)
Lemma self_fold (args : Args) (l : SlotVec Callback) (m : Machine) :
  (∀ s e w, s ∈ l → (invoke s.2 args e w).1.1 = e) →
  self (fold_left (deliver_one invoke args) l m) = self m.
Proof.
  revert m. induction l as [|s l IH]; intros m Hkeep; [reflexivity|].
  cbn [fold_left]. rewrite IH.
  - unfold deliver_one, call_slot.
    specialize (Hkeep s (self m) (env m) (list_elem_of_here _ _)).
    destruct (invoke s.2 args (self m) (env m)) as [[e w] o]. exact Hkeep.
  - intros s' e w Hin. apply Hkeep. right. exact Hin.
Qed.

End EventFacts.

(** ** [Event::publish] *)

(** C1. [publish(args...)] calls the callback of every entry of the
    snapshot it loaded, once each, in the order of the vector, with the
    arguments it was given, and returns normally.  With subscribers A
    then B, [publish(1)] calls A with 1 and then B with 1; once A has
    been unsubscribed, [publish(2)] calls B with 2 and nothing else. *)
Theorem C1_publish_calls_snapshot_in_order :
  (∀ (Args Callback World : Type)
     (invoke : Callback → Args → Event Callback → World →
               Event Callback * World * outcome)
     (args : Args) (m : Machine Args Callback World),
     ∃ m',
       Event_publish invoke args m = (Normal tt, m') ∧
       m' = fold_left (deliver_one invoke args) (slots_ (self m)) m ∧
       delivered m' =
         delivered m ++ map (λ slot, (slot, args)) (slots_ (self m)))
  ∧ main_scenario fresh_machine =
      (Normal (true, 1),
       mkMachine (mkEvent [(2, cb_B)] 3 (Some 0%nat))
                 [("A", 1); ("B", 1); ("B", 2)]
                 [((1, cb_A), 1); ((2, cb_B), 1); ((2, cb_B), 2)]).
Proof.
  split; [|reflexivity].
  intros Args Callback World invoke args m.
  eexists. split; [apply Event_publish_run|]. split; [reflexivity|].
  apply delivered_fold.
Qed.


(** C10, as the code has it.  [subscriber_count] leaves the event as it
    was.  [publish] writes no member of the event itself: the snapshot,
    the counter (and the self reference) are the same after the call as
    before for all callbacks that act on the world only, whatever they do
    there and whether they return or throw, and more generally for all
    callbacks that leave the event as they found it. *)
Theorem C10_publish_and_count_leave_event_unchanged :
  ∀ (Args Callback World : Type) (args : Args) (m : Machine Args Callback World),
    Event_subscriber_count m =
      (Normal (Z.of_nat (length (slots_ (self m)))), m) ∧
    (∀ f : Callback → Args → World → World * outcome,
       (Event_publish (external f) args m).1 = Normal tt ∧
       self (Event_publish (external f) args m).2 = self m) ∧
    (∀ invoke : Callback → Args → Event Callback → World →
                Event Callback * World * outcome,
       (∀ s e w, s ∈ slots_ (self m) → (invoke s.2 args e w).1.1 = e) →
       (Event_publish invoke args m).1 = Normal tt ∧
       self (Event_publish invoke args m).2 = self m).
Proof.
  intros Args Callback World args m.
  assert (Hgen : ∀ invoke : Callback → Args → Event Callback → World →
                            Event Callback * World * outcome,
            (∀ s e w, s ∈ slots_ (self m) → (invoke s.2 args e w).1.1 = e) →
            (Event_publish invoke args m).1 = Normal tt ∧
            self (Event_publish invoke args m).2 = self m).
  { intros invoke Hkeep. rewrite Event_publish_run. cbn [fst snd].
    split; [reflexivity|]. apply self_fold. exact Hkeep. }
  split; [reflexivity|]. split; [|exact Hgen].
  intros f. apply Hgen. intros s e w _. reflexivity.
Qed.

(** ** [Event::subscribe] and [Event::unsubscribe] *)


(** C3. [unsubscribe(id)] returns true exactly when the snapshot has an
    entry with that id.  When it returns false nothing changes.  When it
    returns true the new snapshot is the old one without the entries of
    that id, the others in their order; with one entry of that id, it is
    the old one with exactly that entry taken out. *)
Theorem C3_unsubscribe_removes_entry :
  ∀ (Args Callback World : Type) (id : Z) (m : Machine Args Callback World),
    ∃ removed m',
      Event_unsubscribe id m = (Normal removed, m') ∧
      (removed = true ↔ id ∈ (slots_ (self m)).*1) ∧
      (removed = false → m' = m) ∧
      (removed = true →
         m' = mkMachine (mkEvent (filter (λ s, s.1 ≠ id) (slots_ (self m)))
                                 (next_id_ (self m)) (weak_this_ (self m)))
                        (env m) (delivered m)) ∧
      (∀ l1 cb l2,
         slots_ (self m) = l1 ++ (id, cb) :: l2 →
         id ∉ l1.*1 → id ∉ l2.*1 →
         removed = true ∧ slots_ (self m') = l1 ++ l2).
Proof.
  intros Args Callback World id m.
  rewrite Event_unsubscribe_run.
  destruct (bool_decide (id ∈ (slots_ (self m)).*1)) eqn:Hdec.
  - apply bool_decide_eq_true in Hdec.
    eexists true, _. split; [reflexivity|].
    split; [tauto|]. split; [discriminate|]. split; [reflexivity|].
    intros l1 cb l2 Hslots Hl1 Hl2. split; [reflexivity|].
    cbn [self slots_]. rewrite Hslots, filter_app, filter_cons_False
      by (cbn; intros H; apply H; reflexivity).
    rewrite !filter_other_ids by assumption. reflexivity.
  - apply bool_decide_eq_false in Hdec.
    eexists false, _. split; [reflexivity|].
    split; [split; [discriminate | tauto]|].
    split; [reflexivity|]. split; [discriminate|].
    intros l1 cb l2 Hslots Hl1 Hl2. exfalso. apply Hdec.
    rewrite Hslots, fmap_app, fmap_cons. apply elem_of_app. right. left.
Qed.

(** ** [Subscription::unsubscribe] *)

Section SubscriptionFacts.
Context {Args Callback World : Type}.

Local Abbreviation Sys := (Sys Args Callback World).

(** A token without owner, or whose owner is gone, or whose id is 0:
    the call returns false and writes nothing, neither to the token nor
    to the store. *)
Lemma Subscription_unsubscribe_no_owner (s : Subscription) (sys : Sys) :
  weak_lock (owner_ s) sys = None →
  Subscription_unsubscribe s sys = (Normal false, s, sys).
Proof. intros Hlock. unfold Subscription_unsubscribe. rewrite Hlock. reflexivity. Qed.

Lemma Subscription_unsubscribe_inert (sys : Sys) :
  Subscription_unsubscribe (mkSubscription None 0) sys =
  (Normal false, mkSubscription None 0, sys).
Proof. reflexivity. Qed.

(** A token whose owner is alive and whose id is not 0: one call of
    [Event::unsubscribe] on the owner, and the token is reset. *)
Lemma Subscription_unsubscribe_live (s : Subscription) (sys : Sys)
    (a : nat) (ev : Event Callback) :
  owner_ s = Some a → objs sys !! a = Some ev → id_ s ≠ 0 →
  Subscription_unsubscribe s sys =
  (Normal (bool_decide (id_ s ∈ (slots_ ev).*1)),
   mkSubscription None 0,
   mkSys (<[a := if bool_decide (id_ s ∈ (slots_ ev).*1)
                 then mkEvent (filter (λ x, x.1 ≠ id_ s) (slots_ ev))
                              (next_id_ ev) (weak_this_ ev)
                 else ev]> (objs sys))
         (next_addr sys) (world sys) (deliveries sys)
         (removals sys ++ [(a, id_ s)])).
Proof.
  intros Hown Hobj Hid. unfold Subscription_unsubscribe, weak_lock.
  rewrite Hown, Hobj. apply Z.eqb_neq in Hid. rewrite Hid.
  unfold call_on. rewrite Event_unsubscribe_run. cbn [self env delivered world deliveries objs next_addr removals].
  destruct (bool_decide (id_ s ∈ (slots_ ev).*1)); reflexivity.
Qed.

End SubscriptionFacts.

(** C7. For a token that is live (its event is alive, its id is not 0)
    the first [unsubscribe()] makes exactly one call of
    [Event::unsubscribe], after which the event has no entry of that id,
    and resets the token.  Every later [unsubscribe()] on the token
    returns false and changes nothing: no call of [Event::unsubscribe]
    is made, whatever has happened to the store meanwhile. *)
Theorem C7_second_release_is_a_no_op :
  ∀ (Args Callback World : Type) (s : Subscription)
    (sys : Sys Args Callback World) (a : nat) (ev : Event Callback),
    owner_ s = Some a → objs sys !! a = Some ev → id_ s ≠ 0 →
    ∃ removed s' sys' ev',
      Subscription_unsubscribe s sys = (Normal removed, s', sys') ∧
      (removed = true ↔ id_ s ∈ (slots_ ev).*1) ∧
      removals sys' = removals sys ++ [(a, id_ s)] ∧
      objs sys' !! a = Some ev' ∧ (id_ s ∉ (slots_ ev').*1) ∧
      s' = mkSubscription None 0 ∧
      Subscription_bool s' = false ∧
      ∀ later : Sys Args Callback World,
        Subscription_unsubscribe s' later = (Normal false, s', later).
Proof.
  intros Args Callback World s sys a ev Hown Hobj Hid.
  rewrite (Subscription_unsubscribe_live s sys a ev Hown Hobj Hid).
  eexists _, _, _, _. split; [reflexivity|].
  split; [split; [apply bool_decide_eq_true_1 | apply bool_decide_eq_true_2]|].
  split; [reflexivity|].
  split; [cbn [objs]; apply lookup_insert_eq|].
  split; [|split; [reflexivity | split; [reflexivity | intros later; reflexivity]]].
  destruct (bool_decide (id_ s ∈ (slots_ ev).*1)) eqn:Hdec.
  - cbn [slots_]. apply filter_removes_id.
  - apply bool_decide_eq_false in Hdec. exact Hdec.
Qed.

(** C6, as the code has it.  For a token whose event no longer exists,
    [unsubscribe()] returns false and writes to nothing: the store is
    as before and so is the token, so that [operator bool] answers after
    the call what it answered before it ([true] for a token whose id is
    not 0); every later [unsubscribe()] returns false as well as long as
    nothing lives at the address. *)
Theorem C6_unsubscribe_after_event_is_gone :
  ∀ (Args Callback World : Type) (s : Subscription)
    (sys : Sys Args Callback World) (a : nat),
    owner_ s = Some a → objs sys !! a = None →
    ∃ s',
      Subscription_unsubscribe s sys = (Normal false, s', sys) ∧
      s' = s ∧
      Subscription_bool s' = Subscription_bool s ∧
      (id_ s ≠ 0 → Subscription_bool s' = true) ∧
      ∀ later : Sys Args Callback World,
        objs later !! a = None →
        Subscription_unsubscribe s' later = (Normal false, s', later).
Proof.
  intros Args Callback World s sys a Hown Hgone.
  assert (Hno : ∀ st : Sys Args Callback World,
             objs st !! a = None → weak_lock (owner_ s) st = None).
  { intros st Hst. unfold weak_lock. rewrite Hown, Hst. reflexivity. }
  exists s. split; [apply Subscription_unsubscribe_no_owner, Hno, Hgone|].
  split; [reflexivity|]. split; [reflexivity|]. split.
  - intros Hid. unfold Subscription_bool. apply Z.eqb_neq in Hid.
    rewrite Hid. reflexivity.
  - intros later Hlater. apply Subscription_unsubscribe_no_owner, Hno, Hlater.
Qed.

(** The claim C6 as it is worded fails: after [orphan_scenario] the
    event of the token is gone, [unsubscribe()] returns false, and
    [operator bool] still answers true. *)
Lemma C6_counterexample_token_stays_active :
  ∃ s sys a,
    orphan_scenario = Some (s, sys) ∧
    owner_ s = Some a ∧ objs sys !! a = None ∧
    ∃ s', Subscription_unsubscribe s sys = (Normal false, s', sys) ∧
          Subscription_bool s' ≠ false.
Proof.
  eexists _, _, _. split; [vm_compute; reflexivity|].
  split; [reflexivity|]. split; [vm_compute; reflexivity|].
  eexists. split; [vm_compute; reflexivity|]. vm_compute. discriminate.
Qed.

(** ** The ids handed out by [subscribe] *)

Lemma modulus_value : SizeT.modulus = 18446744073709551616.
Proof. reflexivity. Qed.

Lemma wrap_range (z : Z) : 0 ≤ SizeT.wrap z < SizeT.modulus.
Proof. unfold SizeT.wrap. apply Z.mod_pos_bound. rewrite modulus_value. lia. Qed.

Lemma wrap_small (z : Z) : 0 ≤ z < SizeT.modulus → SizeT.wrap z = z.
Proof. intros Hz. unfold SizeT.wrap. apply Z.mod_small. exact Hz. Qed.

Lemma wrap_add_wrap (n k : Z) :
  SizeT.wrap (SizeT.wrap (n + 1) + k) = SizeT.wrap (n + (k + 1)).
Proof.
  unfold SizeT.wrap. rewrite Zplus_mod_idemp_l. f_equal. lia.
Qed.

(** The members of [ids_from n c] are [n], [n + 1], ..., [n + c - 1]
    modulo [2 ^ 64]. *)
Lemma ids_from_lookup (c : nat) (n : Z) (k : nat) :
  0 ≤ n < SizeT.modulus → (k < c)%nat →
  ids_from n c !! k = Some (SizeT.wrap (n + Z.of_nat k)).
Proof.
  revert n k. induction c as [|c IH]; intros n k Hn Hk; [lia|].
  destruct k as [|k]; cbn [ids_from lookup list_lookup].
  - rewrite Z.add_0_r, wrap_small by exact Hn. reflexivity.
  - rewrite IH by (try apply wrap_range; lia).
    rewrite wrap_add_wrap. do 2 f_equal. lia.
Qed.

Lemma ids_from_length (c : nat) (n : Z) : length (ids_from n c) = c.
Proof. revert n. induction c as [|c IH]; intros n; cbn; [|rewrite IH]; reflexivity. Qed.

Lemma ids_from_elem (c : nat) (n x : Z) :
  0 ≤ n < SizeT.modulus → x ∈ ids_from n c →
  ∃ k, 0 ≤ k < Z.of_nat c ∧ x = SizeT.wrap (n + k).
Proof.
  intros Hn Hin. apply list_elem_of_lookup in Hin as [i Hi].
  assert (Hlt : (i < c)%nat).
  { apply lookup_lt_Some in Hi. rewrite ids_from_length in Hi. exact Hi. }
  rewrite ids_from_lookup in Hi by assumption.
  exists (Z.of_nat i). split; [lia | congruence].
Qed.

(** Up to [2 ^ 64] consecutive values of the counter are all different. *)
Lemma ids_from_NoDup (c : nat) (n : Z) :
  0 ≤ n < SizeT.modulus → Z.of_nat c ≤ SizeT.modulus → NoDup (ids_from n c).
Proof.
  intros Hn Hc. apply NoDup_alt. intros i j x Hi Hj.
  assert (Hic : (i < c)%nat).
  { apply lookup_lt_Some in Hi. rewrite ids_from_length in Hi. exact Hi. }
  assert (Hjc : (j < c)%nat).
  { apply lookup_lt_Some in Hj. rewrite ids_from_length in Hj. exact Hj. }
  rewrite ids_from_lookup in Hi, Hj by assumption.
  assert (Heq : SizeT.wrap (n + Z.of_nat i) = SizeT.wrap (n + Z.of_nat j)) by congruence.
  unfold SizeT.wrap in Heq. rewrite modulus_value in *.
  Z.to_euclidean_division_equations. lia.
Qed.


Section RunFacts.
Context {Args Callback World : Type}.

Local Abbreviation Machine := (Machine Args Callback World).

(** A sequence of calls always runs to its end.  The ids it hands out
    are the successive values of the counter; the entries it leaves are
    entries that were there or bear one of these ids. *)
Lemma run_ops_run (ops : list (op Callback)) (m : Machine) :
  ∃ m',
    run_ops ops m =
      (Normal (ids_from (next_id_ (self m)) (subscribes ops)), m') ∧
    (∀ x, x ∈ (slots_ (self m')).*1 →
          x ∈ (slots_ (self m)).*1 ∨
          x ∈ ids_from (next_id_ (self m)) (subscribes ops)) ∧
    env m' = env m ∧ delivered m' = delivered m.
Proof.
  revert m. induction ops as [|o ops IH]; intros m.
  - exists m. cbn. split; [reflexivity|]. split; [|split; reflexivity].
    intros x Hx. left. exact Hx.
  - cbn [run_ops subscribes]. destruct o as [cb|id|]; cbn [exec_op]; unfold bind, ret.
    + rewrite Event_subscribe_run. cbn [id_].
      match goal with |- context [run_ops ops ?m1] =>
        destruct (IH m1) as (m' & Hrun & Hids & Henv & Hdel) end.
      cbn [self next_id_ slots_ env delivered] in Hrun, Hids, Henv, Hdel.
      exists m'. rewrite Hrun. cbn [app ids_from].
      split; [reflexivity|]. split; [|split; assumption].
      intros x Hx. apply Hids in Hx as [Hx|Hx].
      * rewrite fmap_app, elem_of_app in Hx. destruct Hx as [Hx|Hx]; [left; exact Hx|].
        right. cbn in Hx. apply list_elem_of_singleton in Hx. subst x. left.
      * right. right. exact Hx.
    + rewrite Event_unsubscribe_run.
      destruct (bool_decide (id ∈ (slots_ (self m)).*1)).
      * match goal with |- context [run_ops ops ?m1] =>
          destruct (IH m1) as (m' & Hrun & Hids & Henv & Hdel) end.
        cbn [self next_id_ slots_ env delivered] in Hrun, Hids, Henv, Hdel.
        exists m'. rewrite Hrun. cbn [app].
        split; [reflexivity|]. split; [|split; assumption].
        intros x Hx. apply Hids in Hx as [Hx|Hx]; [left|right; exact Hx].
        apply list_elem_of_fmap in Hx as [s [-> Hs]].
        apply list_elem_of_filter in Hs as [_ Hs].
        apply list_elem_of_fmap. exists s. split; [reflexivity | exact Hs].
      * destruct (IH m) as (m' & Hrun & Hids & Henv & Hdel).
        exists m'. rewrite Hrun. cbn [app].
        split; [reflexivity|]. split; [exact Hids | split; assumption].
    + rewrite Event_clear_run.
      match goal with |- context [run_ops ops ?m1] =>
        destruct (IH m1) as (m' & Hrun & Hids & Henv & Hdel) end.
      cbn [self next_id_ slots_ env delivered] in Hrun, Hids, Henv, Hdel.
      exists m'. rewrite Hrun. cbn [app].
      split; [reflexivity|]. split; [|split; assumption].
      intros x Hx. apply Hids in Hx as [Hx|Hx]; [|right; exact Hx].
      cbn in Hx. inversion Hx.
Qed.

Lemma subscribes_replicate (n : nat) (cb : Callback) :
  subscribes (replicate n (OpSubscribe cb)) = n.
Proof. induction n as [|n IH]; cbn; [|rewrite IH]; reflexivity. Qed.

End RunFacts.

Section ChurnFacts.
Context {Args Callback World : Type}.

Local Abbreviation Machine := (Machine Args Callback World).

(** Two sequences one after the other. *)
Lemma run_ops_app (ops1 ops2 : list (op Callback)) (m m1 m2 : Machine)
    (ids1 ids2 : list Z) :
  run_ops ops1 m = (Normal ids1, m1) →
  run_ops ops2 m1 = (Normal ids2, m2) →
  run_ops (ops1 ++ ops2) m = (Normal (ids1 ++ ids2), m2).
Proof.
  revert m ids1 m1. induction ops1 as [|o ops1 IH]; intros m ids1 m1 H1 H2.
  - cbn in H1. injection H1 as <- <-. exact H2.
  - cbn [app run_ops] in *. unfold bind at 1 in H1. unfold bind at 1.
    destruct (exec_op o m) as [[i|] m']; [|discriminate].
    unfold bind at 1 in H1. unfold bind at 1.
    destruct (run_ops ops1 m') as [[i'|] m''] eqn:Hrest; [|discriminate].
    unfold ret in H1. injection H1 as <- <-.
    rewrite (IH m' i' _ Hrest H2). unfold ret. rewrite app_assoc. reflexivity.
Qed.

(** Rounds of a subscriber that comes and goes leave the snapshot as it
    was, as long as the ids they use are not ids of its entries; the
    counter moves on by one with each round. *)
Lemma churn_run (count : nat) (cb : Callback) (n : Z) (m : Machine) :
  0 ≤ n < SizeT.modulus →
  next_id_ (self m) = n →
  (∀ x, x ∈ ids_from n count → x ∉ (slots_ (self m)).*1) →
  run_ops (churn_ops cb n count) m =
  (Normal (ids_from n count),
   mkMachine (mkEvent (slots_ (self m)) (SizeT.wrap (n + Z.of_nat count))
                      (weak_this_ (self m)))
             (env m) (delivered m)).
Proof.
  revert n m. induction count as [|c IH]; intros n m Hn Hnext Hfree.
  - cbn [churn_ops run_ops ids_from]. unfold ret.
    rewrite Z.add_0_r, wrap_small by exact Hn. rewrite <- Hnext.
    destruct m as [[sl k w] e d]. reflexivity.
  - cbn [churn_ops run_ops exec_op ids_from]. unfold bind, ret.
    rewrite Event_subscribe_run, Event_unsubscribe_run.
    cbn [id_ self slots_ next_id_ weak_this_ env delivered]. rewrite Hnext.
    rewrite bool_decide_eq_true_2
      by (rewrite fmap_app; apply elem_of_app; right; left).
    assert (Hn_free : n ∉ (slots_ (self m)).*1) by (apply Hfree; left).
    rewrite filter_app, filter_other_ids by exact Hn_free.
    rewrite filter_cons_False by (cbn; intros H; apply H; reflexivity).
    rewrite filter_nil, app_nil_r.
    rewrite IH; [| apply wrap_range | reflexivity |].
    + cbn [self slots_ weak_this_ env delivered app].
      rewrite wrap_add_wrap. do 4 f_equal. lia.
    + intros x Hx. cbn [self slots_]. apply Hfree. right. exact Hx.
Qed.

End ChurnFacts.

(** The ids of the rounds of [wrap_calls] and [almost_wrap_calls] are
    2, 3, ..., [2 ^ 64 - 1] and then 0: none is 1, the id of A. *)
Lemma churn_ids_miss_one (count : nat) (x : Z) :
  Z.of_nat count ≤ SizeT.modulus - 1 →
  x ∈ ids_from 2 count → x ∉ ([(1, cb_A)] : SlotVec Printer).*1.
Proof.
  intros Hcount Hx Hin. cbn in Hin. apply list_elem_of_singleton in Hin. subst x.
  apply ids_from_elem in Hx as (k & Hk & Hone); [|rewrite modulus_value; lia].
  unfold SizeT.wrap in Hone. rewrite modulus_value in *.
  Z.to_euclidean_division_equations. lia.
Qed.

Lemma subscribe_then_churn_run (count : nat) :
  Z.of_nat count ≤ SizeT.modulus - 1 →
  run_ops (OpSubscribe cb_A :: churn_ops cb_B 2 count) fresh_machine =
  (Normal (1 :: ids_from 2 count),
   mkMachine (mkEvent [(1, cb_A)] (SizeT.wrap (2 + Z.of_nat count)) (Some 0%nat))
             [] []).
Proof.
  intros Hcount.
  apply (run_ops_app [OpSubscribe cb_A] (churn_ops cb_B 2 count) fresh_machine
           (mkMachine (mkEvent [(1, cb_A)] 2 (Some 0%nat)) [] []) _ [1]).
  - reflexivity.
  - rewrite churn_run; [reflexivity | rewrite modulus_value; lia | reflexivity |].
    intros x Hx. exact (churn_ids_miss_one count x Hcount Hx).
Qed.

Lemma wrap_calls_run :
  run_ops wrap_calls fresh_machine =
  (Normal (1 :: ids_from 2 (Z.to_nat (SizeT.modulus - 1))),
   mkMachine (mkEvent [(1, cb_A)] 1 (Some 0%nat)) [] []).
Proof.
  unfold wrap_calls. rewrite subscribe_then_churn_run.
  - rewrite Z2Nat.id by (rewrite modulus_value; lia). reflexivity.
  - rewrite Z2Nat.id by (rewrite modulus_value; lia). lia.
Qed.


(** C5, as the code has it.  From any state of the event whose counter is
    a [size_t] value, a sequence of subscribe, unsubscribe and clear calls
    with at most [2 ^ 64] subscribe calls hands out pairwise different
    ids, the successive values of the counter; removing entries by
    unsubscribe or clear does not bring an id back. *)
Theorem C5_ids_distinct_until_counter_wraps :
  ∀ (Args Callback World : Type) (ops : list (op Callback))
    (m : Machine Args Callback World),
    0 ≤ next_id_ (self m) < SizeT.modulus →
    Z.of_nat (subscribes ops) ≤ SizeT.modulus →
    ∃ ids m',
      run_ops ops m = (Normal ids, m') ∧
      length ids = subscribes ops ∧
      (∀ k, (k < subscribes ops)%nat →
            ids !! k = Some (SizeT.wrap (next_id_ (self m) + Z.of_nat k))) ∧
      NoDup ids.
Proof.
  intros Args Callback World ops m Hrange Hcount.
  destruct (run_ops_run ops m) as (m' & Hrun & _).
  eexists _, m'. split; [exact Hrun|].
  split; [apply ids_from_length|].
  split; [intros k Hk; apply ids_from_lookup; assumption|].
  apply ids_from_NoDup; assumption.
Qed.

(** The claim C5 as it is worded fails.  On a new event A subscribes
    and gets the id 1; B subscribes and unsubscribes [2 ^ 64 - 1] times,
    with never more than two entries in the snapshot; the next
    [subscribe] returns the id 1 again, while A still holds it. *)
Lemma C5_counterexample_id_reissued_after_wrap :
  ∃ ids m',
    run_ops (wrap_calls ++ [OpSubscribe cb_B]) fresh_machine = (Normal ids, m') ∧
    ids !! 0%nat = Some 1 ∧
    ids !! S (Z.to_nat (SizeT.modulus - 1)) = Some 1 ∧
    ¬ NoDup ids ∧
    slots_ (self m') = [(1, cb_A); (1, cb_B)].
Proof.
  assert (Hrun : run_ops (wrap_calls ++ [OpSubscribe cb_B]) fresh_machine =
            (Normal ((1 :: ids_from 2 (Z.to_nat (SizeT.modulus - 1))) ++ [1]),
             mkMachine (mkEvent [(1, cb_A); (1, cb_B)] 2 (Some 0%nat)) [] [])).
  { apply (run_ops_app _ _ _ _ _ _ _ wrap_calls_run). reflexivity. }
  assert (Hfirst : ((1 :: ids_from 2 (Z.to_nat (SizeT.modulus - 1))) ++ [1])
                     !! 0%nat = Some 1) by reflexivity.
  assert (Hlast : ((1 :: ids_from 2 (Z.to_nat (SizeT.modulus - 1))) ++ [1])
                    !! S (Z.to_nat (SizeT.modulus - 1)) = Some 1).
  { apply list_lookup_middle. cbn [length]. rewrite ids_from_length. reflexivity. }
  eexists _, _. split; [exact Hrun|]. split; [exact Hfirst|].
  split; [exact Hlast|]. split; [|reflexivity].
  intros Hnodup. pose proof (NoDup_lookup _ _ _ _ Hnodup Hfirst Hlast) as Heq.
  discriminate Heq.
Qed.


(** ** [Event::clear] *)



(** ** [EventBus] *)

Section BusFacts.
Context {Args Callback World : Type}.
Variable invoke :
  Callback -> Args -> Event Callback -> World -> Event Callback * World * outcome.

Local Abbreviation Sys := (Sys Args Callback World).

Lemma EventBus_publish_unknown (topic : string) (args : Args)
    (bus : EventBus) (sys : Sys) :
  channels_ bus !! topic = None →
  EventBus_publish invoke topic args bus sys = Some (Normal tt, bus, sys).
Proof. intros Hnone. unfold EventBus_publish. rewrite Hnone. reflexivity. Qed.

Lemma EventBus_publish_empty (topic : string) (args : Args)
    (bus : EventBus) (sys : Sys) (a : nat) (ev : Event Callback) :
  channels_ bus !! topic = Some (Some a) →
  objs sys !! a = Some ev → slots_ ev = [] →
  EventBus_publish invoke topic args bus sys = Some (Normal tt, bus, sys).
Proof.
  intros Hch Hobj Hempty. unfold EventBus_publish, call_via, call_on.
  rewrite Hch, Hobj, Event_publish_run. cbn [self]. rewrite Hempty.
  cbn [fold_left self env delivered].
  rewrite insert_id by exact Hobj. destruct sys; reflexivity.
Qed.

(** A call through a pointer to a live event leaves every live event
    alive. *)
Lemma call_via_alive {A} (a : nat) (f : M Args Callback World A) (sys : Sys) :
  is_Some (objs sys !! a) →
  ∃ r sys', call_via a f sys = Some (r, sys') ∧
            ∀ b, is_Some (objs sys !! b) → is_Some (objs sys' !! b).
Proof.
  intros [ev Hev]. unfold call_via, call_on. rewrite Hev.
  destruct (f _) as [r m]. eexists _, _. split; [reflexivity|].
  intros b Hb. cbn [objs]. rewrite lookup_insert.
  case_decide; [eexists; reflexivity | exact Hb].
Qed.

(** One call on a bus that owns its events is defined, leaves a bus
    that owns its events, and adds no topic other than the one passed to
    [subscribe]. *)
Lemma exec_bus_op_owns (o : bus_op Args Callback) (bus : EventBus) (sys : Sys) :
  bus_owns bus sys →
  ∃ bus' sys',
    exec_bus_op invoke o bus sys = Some (bus', sys') ∧
    bus_owns bus' sys' ∧
    ∀ topic, topic ∉ subscribed_topics [o] →
             channels_ bus' !! topic = channels_ bus !! topic.
Proof.
  intros Howns. destruct o as [t cb|t args|t]; cbn [exec_bus_op subscribed_topics].
  - unfold EventBus_subscribe.
    destruct (channels_ bus !! t) as [p|] eqn:Hch.
    + destruct (Howns t p Hch) as (a & -> & Halive).
      rewrite Hch. cbv beta iota zeta delta [default from_option id].
      destruct (call_via_alive a (Event_subscribe cb) sys Halive)
        as (r & sys' & Hcall & Hkeep).
      rewrite Hcall. eexists _, _. split; [reflexivity|]. split.
      * intros topic p Hp. cbn [channels_] in Hp.
        destruct (Howns topic p Hp) as (b & -> & Hb).
        exists b. split; [reflexivity | apply Hkeep, Hb].
      * intros topic _. reflexivity.
    + rewrite lookup_insert_eq.
      cbv beta iota zeta delta [default from_option id make_shared_Event].
      match goal with |- context [call_via ?a ?f ?s1] =>
        destruct (call_via_alive a f s1) as (r & sys' & Hcall & Hkeep) end.
      { cbn [objs]. rewrite lookup_insert_eq. eexists; reflexivity. }
      rewrite Hcall. eexists _, _. split; [reflexivity|]. split.
      * intros topic p Hp. cbn [channels_] in Hp.
        rewrite lookup_insert in Hp. case_decide as Htopic.
        -- injection Hp as <-. eexists. split; [reflexivity|].
           apply Hkeep. cbn [objs]. rewrite lookup_insert_eq. eexists; reflexivity.
        -- rewrite lookup_insert_ne in Hp by exact Htopic.
           destruct (Howns topic p Hp) as (b & -> & Hb).
           exists b. split; [reflexivity|]. apply Hkeep. cbn [objs].
           rewrite lookup_insert. case_decide; [eexists; reflexivity | exact Hb].
      * intros topic Hnot. cbn [channels_].
        rewrite not_elem_of_cons in Hnot. destruct Hnot as [Hne _].
        rewrite !lookup_insert_ne by (intros Heq; apply Hne; symmetry; exact Heq).
        reflexivity.
  - unfold EventBus_publish.
    destruct (channels_ bus !! t) as [p|] eqn:Hch.
    + destruct (Howns t p Hch) as (a & -> & Halive).
      destruct (call_via_alive a (Event_publish invoke args) sys Halive)
        as (r & sys' & Hcall & Hkeep).
      rewrite Hcall. eexists _, _. split; [reflexivity|]. split.
      * intros topic p Hp. destruct (Howns topic p Hp) as (b & -> & Hb).
        exists b. split; [reflexivity | apply Hkeep, Hb].
      * intros topic _. reflexivity.
    + eexists _, _. split; [reflexivity|]. split; [exact Howns|].
      intros topic _. reflexivity.
  - unfold EventBus_subsriber_count.
    destruct (channels_ bus !! t) as [p|] eqn:Hch.
    + destruct (Howns t p Hch) as (a & -> & Halive).
      destruct (call_via_alive a (@Event_subscriber_count Args Callback World) sys Halive)
        as (r & sys' & Hcall & Hkeep).
      rewrite Hcall. eexists _, _. split; [reflexivity|]. split.
      * intros topic p Hp. destruct (Howns topic p Hp) as (b & -> & Hb).
        exists b. split; [reflexivity | apply Hkeep, Hb].
      * intros topic _. reflexivity.
    + eexists _, _. split; [reflexivity|]. split; [exact Howns|].
      intros topic _. reflexivity.
Qed.

Lemma subscribed_topics_cons (o : bus_op Args Callback) (ops : list (bus_op Args Callback)) :
  subscribed_topics (o :: ops) = subscribed_topics [o] ++ subscribed_topics ops.
Proof. destruct o; reflexivity. Qed.

Lemma run_bus_owns (ops : list (bus_op Args Callback)) (bus : EventBus) (sys : Sys) :
  bus_owns bus sys →
  ∃ bus' sys',
    run_bus invoke ops bus sys = Some (bus', sys') ∧
    bus_owns bus' sys' ∧
    ∀ topic, topic ∉ subscribed_topics ops →
             channels_ bus' !! topic = channels_ bus !! topic.
Proof.
  revert bus sys. induction ops as [|o ops IH]; intros bus sys Howns.
  - exists bus, sys. split; [reflexivity|]. split; [exact Howns|]. reflexivity.
  - destruct (exec_bus_op_owns o bus sys Howns) as (bus1 & sys1 & Hexec & Howns1 & Hsame1).
    destruct (IH bus1 sys1 Howns1) as (bus2 & sys2 & Hrun & Howns2 & Hsame2).
    exists bus2, sys2. cbn [run_bus]. rewrite Hexec.
    split; [exact Hrun|]. split; [exact Howns2|].
    intros topic Hnot. rewrite subscribed_topics_cons, not_elem_of_app in Hnot.
    destruct Hnot as [Ho Hops]. rewrite Hsame2, Hsame1 by assumption. reflexivity.
Qed.

End BusFacts.

(** C9. [EventBus::publish] for a topic that was never passed to
    [EventBus::subscribe] returns normally and changes nothing: no
    callback is called, no event is touched, and the map of topics is
    the same (no channel is made for the topic).  Publishing to a
    channel without subscribers, through the bus or directly, calls no
    callback and returns normally as well. *)
Theorem C9_publish_to_unknown_topic_is_a_no_op :
  ∀ (Args Callback World : Type)
    (invoke : Callback → Args → Event Callback → World →
              Event Callback * World * outcome),
    (∀ (ops : list (bus_op Args Callback)) (sys0 : Sys Args Callback World)
       (topic : string) (args : Args),
       topic ∉ subscribed_topics ops →
       ∃ bus sys,
         run_bus invoke ops EventBus_new sys0 = Some (bus, sys) ∧
         channels_ bus !! topic = None ∧
         EventBus_publish invoke topic args bus sys = Some (Normal tt, bus, sys))
    ∧
    (∀ (bus : EventBus) (sys : Sys Args Callback World)
       (topic : string) (args : Args) (a : nat) (ev : Event Callback),
       channels_ bus !! topic = Some (Some a) →
       objs sys !! a = Some ev → slots_ ev = [] →
       EventBus_publish invoke topic args bus sys = Some (Normal tt, bus, sys))
    ∧
    (∀ (args : Args) (m : Machine Args Callback World),
       slots_ (self m) = [] →
       Event_publish invoke args m = (Normal tt, m)).
Proof.
  intros Args Callback World invoke. split; [|split].
  - intros ops sys0 topic args Hnever.
    destruct (run_bus_owns invoke ops EventBus_new sys0) as (bus & sys & Hrun & _ & Hsame).
    { intros t p Hp. cbn in Hp. rewrite lookup_empty in Hp. discriminate. }
    exists bus, sys. split; [exact Hrun|].
    assert (Hnone : channels_ bus !! topic = None).
    { rewrite Hsame by exact Hnever. apply lookup_empty. }
    split; [exact Hnone|]. apply EventBus_publish_unknown, Hnone.
  - intros bus sys topic args a ev. apply EventBus_publish_empty.
  - intros args m Hempty. rewrite Event_publish_run, Hempty. reflexivity.
Qed.

(** ** The theorems at work *)

(** On the bus of [bus_calls], "cpu" reaches its two subscribers, "unknown"
    reaches nobody, "gpu" reaches its one subscriber, who throws. *)
Example bus_calls_output :
  ∃ bus sys,
    run_bus print bus_calls EventBus_new empty_sys = Some (bus, sys) ∧
    world sys = [("A", 5); ("B", 5); ("X", 6)] ∧
    channels_ bus !! "unknown" = None.
Proof. eexists _, _. split; [vm_compute; reflexivity|]. split; reflexivity. Qed.

(** Without the [try] of [publish] the loop would stop at the first
    callback that throws. *)
Example unguarded_loop_stops :
  (for_each (slots_ (self busy_machine))
            (λ slot, call_slot print slot 5) busy_machine).1 = Raised ∧
  env (for_each (slots_ (self busy_machine))
                (λ slot, call_slot print slot 5) busy_machine).2 =
    [("A", 5); ("X", 5)] ∧
  env (Event_publish print 5 busy_machine).2 = [("A", 5); ("X", 5); ("B", 5)].
Proof. split; [|split]; reflexivity. Qed.

(** A callback may change the subscriber list while [publish] runs: the
    calls still go to the snapshot that was loaded.  Here every callback
    unsubscribes entry 3, which is called all the same, and is gone at
    the next [publish]. *)
Example publish_uses_loaded_snapshot :
  delivered (Event_publish (print_and_drop 3) 5 busy_machine).2 =
    [((1, cb_A), 5); ((2, cb_X), 5); ((3, cb_B), 5)] ∧
  slots_ (self (Event_publish (print_and_drop 3) 5 busy_machine).2) =
    [(1, cb_A); (2, cb_X)] ∧
  env (Event_publish (print_and_drop 3) 6
         (Event_publish (print_and_drop 3) 5 busy_machine).2).2 =
    [("A", 5); ("X", 5); ("B", 5); ("A", 6); ("X", 6)].
Proof. split; [|split]; reflexivity. Qed.

(** The claim C10 as it is worded fails: with callbacks that unsubscribe
    entry 3 of their own channel, [publish] returns normally and the
    snapshot after the call is not the snapshot before it. *)
Lemma C10_counterexample_callback_changes_snapshot :
  (Event_publish (print_and_drop 3) 5 busy_machine).1 = Normal tt ∧
  slots_ (self busy_machine) = [(1, cb_A); (2, cb_X); (3, cb_B)] ∧
  slots_ (self (Event_publish (print_and_drop 3) 5 busy_machine).2) =
    [(1, cb_A); (2, cb_X)] ∧
  self (Event_publish (print_and_drop 3) 5 busy_machine).2 ≠ self busy_machine.
Proof.
  split; [reflexivity|]. split; [reflexivity|]. split; [reflexivity|].
  intros Heq.
  assert (Hslots : slots_ (self (Event_publish (print_and_drop 3) 5 busy_machine).2) =
                   slots_ (self busy_machine)) by (rewrite Heq; reflexivity).
  discriminate Hslots.
Qed.


Lemma C3_witness :
  ∃ m',
    Event_unsubscribe 2 busy_machine = (Normal true, m') ∧
    slots_ (self m') = [(1, cb_A); (3, cb_B)].
Proof.
  destruct (C3_unsubscribe_removes_entry Z Printer Output 2 busy_machine)
    as (removed & m' & Hrun & _ & _ & _ & Hone).
  destruct (Hone [(1, cb_A)] cb_X [(3, cb_B)]) as [-> Hslots].
  - reflexivity.
  - cbn. intros Hin. apply list_elem_of_singleton in Hin. lia.
  - cbn. intros Hin. apply list_elem_of_singleton in Hin. lia.
  - exists m'. split; [exact Hrun | exact Hslots].
Defined.


Lemma C5_witness :
  0 ≤ next_id_ (self fresh_machine) < SizeT.modulus ∧
  ∃ ids m',
    run_ops [OpSubscribe cb_A; OpSubscribe cb_B; OpUnsubscribe 1; OpClear;
             OpSubscribe cb_A] fresh_machine = (Normal ids, m') ∧
    length ids = 3%nat ∧ NoDup ids.
Proof.
  assert (Hrange : 0 ≤ next_id_ (self fresh_machine) < SizeT.modulus)
    by (cbn; rewrite modulus_value; lia).
  split; [exact Hrange|].
  destruct (C5_ids_distinct_until_counter_wraps Z Printer Output
              [OpSubscribe cb_A; OpSubscribe cb_B; OpUnsubscribe 1; OpClear;
               OpSubscribe cb_A] fresh_machine Hrange)
    as (ids & m' & Hrun & Hlen & _ & Hnodup).
  - cbn. rewrite modulus_value. lia.
  - exists ids, m'. split; [exact Hrun|]. split; [exact Hlen | exact Hnodup].
Defined.

Lemma C6_witness :
  owner_ token_A = Some 0%nat ∧ objs empty_sys !! 0%nat = None ∧
  Subscription_unsubscribe token_A empty_sys = (Normal false, token_A, empty_sys) ∧
  Subscription_bool token_A = true.
Proof.
  assert (Hgone : objs empty_sys !! 0%nat = None) by (vm_compute; reflexivity).
  destruct (C6_unsubscribe_after_event_is_gone Z Printer Output token_A
              empty_sys 0%nat eq_refl Hgone) as (s' & Hrun & -> & _ & Hbool & _).
  split; [reflexivity|]. split; [exact Hgone|]. split; [exact Hrun|].
  apply Hbool. cbn. lia.
Defined.

Lemma C7_witness :
  ∃ sys',
    Subscription_unsubscribe token_A busy_sys =
      (Normal true, mkSubscription None 0, sys') ∧
    removals sys' = [(0%nat, 1)] ∧
    Subscription_unsubscribe (mkSubscription None 0) sys' =
      (Normal false, mkSubscription None 0, sys').
Proof.
  assert (Hobj : objs busy_sys !! 0%nat = Some (self busy_machine))
    by (vm_compute; reflexivity).
  assert (Hid : id_ token_A ≠ 0) by (cbn; lia).
  destruct (C7_second_release_is_a_no_op Z Printer Output token_A busy_sys
              0%nat (self busy_machine) eq_refl Hobj Hid)
    as (removed & s' & sys' & ev' & Hrun & Hremoved & Hlog & _ & _ & -> & _ & Hagain).
  assert (Htrue : removed = true).
  { apply Hremoved. cbn. left. }
  subst removed. exists sys'. split; [exact Hrun|]. split; [exact Hlog|]. apply Hagain.
Defined.


Lemma C9_witness :
  ("unknown" ∉ subscribed_topics bus_calls) ∧
  ∃ bus sys,
    run_bus print bus_calls EventBus_new empty_sys = Some (bus, sys) ∧
    EventBus_publish print "unknown" 1 bus sys = Some (Normal tt, bus, sys).
Proof.
  assert (Hnever : "unknown" ∉ subscribed_topics bus_calls).
  { apply (bool_decide_unpack _). vm_compute. exact I. }
  split; [exact Hnever|].
  destruct (C9_publish_to_unknown_topic_is_a_no_op Z Printer Output print) as [Hunknown _].
  destruct (Hunknown bus_calls empty_sys "unknown" 1 Hnever) as (bus & sys & Hrun & _ & Hpub).
  exists bus, sys. split; [exact Hrun | exact Hpub].
Defined.

Lemma C10_witness :
  (Event_publish print 5 busy_machine).1 = Normal tt ∧
  self (Event_publish print 5 busy_machine).2 = self busy_machine.
Proof.
  destruct (C10_publish_and_count_leave_event_unchanged Z Printer Output
              5 busy_machine) as (_ & _ & Hpub).
  apply Hpub. intros s e w _. reflexivity.
Defined.

(** * Further properties of the header *)

(** ** How [subscribe], [unsubscribe] and [publish] compose *)

Section ComposeFacts.
Context {Args Callback World : Type}.

Local Abbreviation Machine := (Machine Args Callback World).

(** Whatever [unsubscribe] returns, the snapshot it leaves is the old
    one without the entries of the id. *)
Lemma Event_unsubscribe_state (id : Z) (m : Machine) :
  (Event_unsubscribe id m).2 =
  mkMachine (mkEvent (filter (λ s, s.1 ≠ id) (slots_ (self m)))
                     (next_id_ (self m)) (weak_this_ (self m)))
            (env m) (delivered m).
Proof.
  rewrite Event_unsubscribe_run.
  destruct (bool_decide (id ∈ (slots_ (self m)).*1)) eqn:Hdec; [reflexivity|].
  apply bool_decide_eq_false in Hdec. cbn [snd].
  rewrite filter_other_ids by exact Hdec.
  destruct m as [[sl n w] e d]. reflexivity.
Qed.

Lemma Event_unsubscribe_value (id : Z) (m : Machine) :
  (Event_unsubscribe id m).1 = Normal (bool_decide (id ∈ (slots_ (self m)).*1)).
Proof.
  rewrite Event_unsubscribe_run.
  destruct (bool_decide (id ∈ (slots_ (self m)).*1)); reflexivity.
Qed.

Lemma filter_two_ids (a b : Z) (l : SlotVec Callback) :
  filter (λ s, s.1 ≠ a) (filter (λ s, s.1 ≠ b) l) =
  filter (λ s, s.1 ≠ b) (filter (λ s, s.1 ≠ a) l).
Proof.
  rewrite !list_filter_filter. apply list_filter_iff. intros s. tauto.
Qed.

(** With ids that are all different, taking an id out makes the vector
    one entry shorter. *)
Lemma filter_one_shorter (id : Z) (l : SlotVec Callback) :
  NoDup l.*1 → id ∈ l.*1 →
  S (length (filter (λ s, s.1 ≠ id) l)) = length l.
Proof.
  induction l as [|s l IH]; intros Hnodup Hin; [inversion Hin|].
  rewrite fmap_cons in Hnodup, Hin. apply NoDup_cons in Hnodup as [Hs Hl].
  destruct (decide (s.1 = id)) as [Heq|Hne].
  - rewrite filter_cons_False by (intros H; apply H; exact Heq).
    rewrite filter_other_ids by (rewrite <- Heq; exact Hs). reflexivity.
  - rewrite filter_cons_True by exact Hne. cbn [length]. f_equal.
    apply IH; [exact Hl|]. apply elem_of_cons in Hin as [Hid|Hin]; [congruence | exact Hin].
Qed.

End ComposeFacts.

(** X1. A second [unsubscribe(id)] for the same id returns false and
    changes nothing, in every state of the event and whether or not the
    first call found an entry. *)
Theorem X1_unsubscribe_twice :
  ∀ (Args Callback World : Type) (id : Z) (m : Machine Args Callback World),
    Event_unsubscribe id (Event_unsubscribe id m).2 =
      (Normal false, (Event_unsubscribe id m).2).
Proof.
  intros Args Callback World id m.
  rewrite Event_unsubscribe_state, Event_unsubscribe_run. cbn [self slots_].
  rewrite bool_decide_eq_false_2 by apply filter_removes_id. reflexivity.
Qed.

(** X2. [subscribe(cb)] followed by [unsubscribe] of the id it returned:
    the second call returns true, and when the id was not the id of an
    entry the snapshot is back to what it was; only the counter has
    moved on. *)
Theorem X2_subscribe_then_unsubscribe :
  ∀ (Args Callback World : Type) (cb : Callback) (m : Machine Args Callback World),
    next_id_ (self m) ∉ (slots_ (self m)).*1 →
    (s <- Event_subscribe cb ;; Event_unsubscribe (id_ s))%event m =
      (Normal true,
       mkMachine (mkEvent (slots_ (self m))
                          (SizeT.wrap (next_id_ (self m) + 1))
                          (weak_this_ (self m)))
                 (env m) (delivered m)).
Proof.
  intros Args Callback World cb m Hfresh.
  unfold bind. rewrite Event_subscribe_run. cbn [id_].
  rewrite Event_unsubscribe_run. cbn [self slots_ next_id_ weak_this_ env delivered].
  rewrite bool_decide_eq_true_2
    by (rewrite fmap_app; apply elem_of_app; right; left).
  rewrite filter_app, filter_other_ids by exact Hfresh.
  rewrite filter_cons_False by (cbn; intros H; apply H; reflexivity).
  rewrite filter_nil, app_nil_r. reflexivity.
Qed.

(** X3. After [unsubscribe(id)] has returned, a [publish] calls the
    remaining entries, in their order, and no entry of that id, whatever
    the callbacks do. *)
Theorem X3_no_delivery_after_unsubscribe :
  ∀ (Args Callback World : Type)
    (invoke : Callback → Args → Event Callback → World →
              Event Callback * World * outcome)
    (id : Z) (args : Args) (m : Machine Args Callback World),
    let kept := filter (λ s, s.1 ≠ id) (slots_ (self m)) in
    delivered (Event_publish invoke args (Event_unsubscribe id m).2).2 =
      delivered m ++ map (λ s, (s, args)) kept ∧
    id ∉ kept.*1.
Proof.
  intros Args Callback World invoke id args m kept. split.
  - rewrite Event_publish_run. cbn [snd].
    rewrite delivered_fold, Event_unsubscribe_state. reflexivity.
  - apply filter_removes_id.
Qed.

(** X4. Two [unsubscribe] calls leave the same event in either order. *)
Theorem X4_unsubscribe_commutes :
  ∀ (Args Callback World : Type) (a b : Z) (m : Machine Args Callback World),
    (Event_unsubscribe a (Event_unsubscribe b m).2).2 =
    (Event_unsubscribe b (Event_unsubscribe a m).2).2.
Proof.
  intros Args Callback World a b m.
  rewrite !Event_unsubscribe_state. cbn [self slots_ next_id_ weak_this_ env delivered].
  rewrite filter_two_ids. reflexivity.
Qed.

(** ** Sequences of calls, one call at a time *)

Section StepFacts.
Context {Args Callback World : Type}.

Local Abbreviation Machine := (Machine Args Callback World).

Lemma exec_op_state (o : op Callback) (m : Machine) :
  (exec_op o m).2 =
  match o with
  | OpSubscribe cb =>
      mkMachine (mkEvent (slots_ (self m) ++ [(next_id_ (self m), cb)])
                         (SizeT.wrap (next_id_ (self m) + 1))
                         (weak_this_ (self m)))
                (env m) (delivered m)
  | OpUnsubscribe id => (Event_unsubscribe id m).2
  | OpClear =>
      mkMachine (mkEvent [] (next_id_ (self m)) (weak_this_ (self m)))
                (env m) (delivered m)
  end.
Proof.
  destruct o as [cb|id|]; cbn [exec_op]; unfold bind, ret.
  - rewrite Event_subscribe_run. reflexivity.
  - rewrite Event_unsubscribe_run.
    destruct (bool_decide (id ∈ (slots_ (self m)).*1)); reflexivity.
  - rewrite Event_clear_run. reflexivity.
Qed.

Lemma exec_op_normal (o : op Callback) (m : Machine) :
  ∃ ids, (exec_op o m).1 = Normal ids.
Proof.
  destruct o as [cb|id|]; cbn [exec_op]; unfold bind, ret.
  - rewrite Event_subscribe_run. eexists; reflexivity.
  - rewrite Event_unsubscribe_run.
    destruct (bool_decide (id ∈ (slots_ (self m)).*1)); eexists; reflexivity.
  - rewrite Event_clear_run. eexists; reflexivity.
Qed.

Lemma run_ops_cons_state (o : op Callback) (ops : list (op Callback)) (m : Machine) :
  (run_ops (o :: ops) m).2 = (run_ops ops (exec_op o m).2).2.
Proof.
  cbn [run_ops]. unfold bind at 1.
  destruct (exec_op_normal o m) as [ids Hids].
  destruct (exec_op o m) as [r m1]. cbn [fst snd] in *. subst r.
  unfold bind, ret. destruct (run_ops_run ops m1) as (m2 & Hrun & _).
  rewrite Hrun. reflexivity.
Qed.

Lemma filter_ids_subset (id x : Z) (l : SlotVec Callback) :
  x ∈ (filter (λ s, s.1 ≠ id) l).*1 → x ∈ l.*1.
Proof.
  intros Hx. apply list_elem_of_fmap in Hx as [s [-> Hs]].
  apply list_elem_of_filter in Hs as [_ Hs].
  apply list_elem_of_fmap. exists s. split; [reflexivity | exact Hs].
Qed.

Lemma filter_ids_sorted (id : Z) (l : SlotVec Callback) :
  StronglySorted Z.lt l.*1 → StronglySorted Z.lt (filter (λ s, s.1 ≠ id) l).*1.
Proof.
  induction l as [|s l IH]; intros Hsorted; [constructor|].
  rewrite fmap_cons in Hsorted. apply StronglySorted_inv in Hsorted as [Hl Hs].
  destruct (decide (s.1 ≠ id)) as [Hne|Heq].
  - rewrite filter_cons_True by exact Hne. rewrite fmap_cons.
    constructor; [apply IH, Hl|].
    apply Forall_forall. intros x Hx. apply filter_ids_subset in Hx.
    rewrite Forall_forall in Hs. apply Hs, Hx.
  - rewrite filter_cons_False by exact Heq. apply IH, Hl.
Qed.

(** One call keeps the ids in order, as long as the counter does not
    reach [2 ^ 64]. *)
Lemma exec_op_ids_in_order (o : op Callback) (m : Machine) :
  ids_in_order (self m) →
  next_id_ (self m) + Z.of_nat (subscribes [o]) < SizeT.modulus →
  ids_in_order (self (exec_op o m).2) ∧
  next_id_ (self (exec_op o m).2) =
    next_id_ (self m) + Z.of_nat (subscribes [o]).
Proof.
  intros (Hpos & Hsorted & Hbelow) Hbound. rewrite exec_op_state.
  unfold ids_in_order. destruct o as [cb|id|]; cbn [subscribes] in *.
  - cbn [self slots_ next_id_].
    assert (Hwrap : SizeT.wrap (next_id_ (self m) + 1) = next_id_ (self m) + 1)
      by (apply wrap_small; lia).
    rewrite Hwrap. split; [|lia]. split; [lia|]. rewrite fmap_app. split.
    + apply StronglySorted_app_2; [|exact Hsorted|repeat constructor].
      intros x1 x2 Hx1 Hx2. cbn in Hx2. apply list_elem_of_singleton in Hx2. subst x2.
      rewrite Forall_forall in Hbelow. apply Hbelow in Hx1. lia.
    + apply Forall_app. split.
      * eapply Forall_impl; [exact Hbelow|]. cbn. intros x Hx. lia.
      * repeat constructor; cbn; lia.
  - rewrite Event_unsubscribe_state. cbn [self slots_ next_id_].
    split; [|lia]. split; [exact Hpos|]. split; [apply filter_ids_sorted, Hsorted|].
    apply Forall_forall. intros x Hx. apply filter_ids_subset in Hx.
    rewrite Forall_forall in Hbelow. apply Hbelow, Hx.
  - cbn [self slots_ next_id_]. split; [|lia].
    split; [exact Hpos|]. split; constructor.
Qed.

Lemma subscribes_cons (o : op Callback) (ops : list (op Callback)) :
  subscribes (o :: ops) = (subscribes [o] + subscribes ops)%nat.
Proof. destruct o; reflexivity. Qed.

Lemma run_ops_ids_in_order (ops : list (op Callback)) (m : Machine) :
  ids_in_order (self m) →
  next_id_ (self m) + Z.of_nat (subscribes ops) < SizeT.modulus →
  ids_in_order (self (run_ops ops m).2).
Proof.
  revert m. induction ops as [|o ops IH]; intros m Hinv Hbound; [exact Hinv|].
  rewrite run_ops_cons_state. rewrite subscribes_cons in Hbound.
  destruct (exec_op_ids_in_order o m Hinv) as [Hinv1 Hnext]; [lia|].
  apply IH; [exact Hinv1|]. rewrite Hnext. lia.
Qed.

Lemma sorted_ids_NoDup (l : list Z) : StronglySorted Z.lt l → NoDup l.
Proof.
  induction 1 as [|x l Hl IH Hx]; [constructor|].
  apply NoDup_cons. split; [|exact IH].
  intros Hin. rewrite Forall_forall in Hx. apply Hx in Hin. lia.
Qed.

End StepFacts.

(** X5. A new event has its ids in order, and every sequence of
    subscribe, unsubscribe and clear calls that does not take the counter
    to [2 ^ 64] keeps them so: in the snapshot the ids grow in the order
    of insertion, are pairwise different, are below the counter, and none
    is 0, the value by which a token says it holds nothing. *)
Theorem X5_ids_stay_in_order :
  ∀ (Args Callback World : Type),
    ids_in_order (Event_new : Event Callback) ∧
    ∀ (ops : list (op Callback)) (m : Machine Args Callback World),
      ids_in_order (self m) →
      next_id_ (self m) + Z.of_nat (subscribes ops) < SizeT.modulus →
      let ev' := self (run_ops ops m).2 in
      ids_in_order ev' ∧ NoDup (slots_ ev').*1 ∧ (0 ∉ (slots_ ev').*1).
Proof.
  intros Args Callback World. split.
  - split; [cbn; lia|]. split; constructor.
  - intros ops m Hinv Hbound ev'.
    pose proof (run_ops_ids_in_order ops m Hinv Hbound) as Hinv'.
    split; [exact Hinv'|]. destruct Hinv' as (_ & Hsorted & Hbelow).
    split; [apply sorted_ids_NoDup, Hsorted|].
    intros Hzero. rewrite Forall_forall in Hbelow. apply Hbelow in Hzero. lia.
Qed.

Section CountFacts.
Context {Args Callback World : Type}.

Local Abbreviation Machine := (Machine Args Callback World).

Lemma removed_in_run (ops : list (op Callback)) (m : Machine) :
  OpClear ∉ ops →
  ids_in_order (self m) →
  next_id_ (self m) + Z.of_nat (subscribes ops) < SizeT.modulus →
  ∃ k,
    removed_in ops m = (Normal k, (run_ops ops m).2) ∧
    (length (slots_ (self (run_ops ops m).2)) + k =
     length (slots_ (self m)) + subscribes ops)%nat.
Proof.
  revert m. induction ops as [|o ops IH]; intros m Hclear Hinv Hbound.
  - exists 0%nat. split; [reflexivity|]. cbn. lia.
  - apply not_elem_of_cons in Hclear as [Ho Hclear].
    rewrite subscribes_cons in Hbound |- *.
    destruct (exec_op_ids_in_order o m Hinv) as [Hinv1 Hnext]; [lia|].
    destruct (IH (exec_op o m).2 Hclear Hinv1) as (k & Hrun & Hlen); [lia|].
    rewrite run_ops_cons_state.
    destruct o as [cb|id|]; [| |congruence].
    + exists k. split.
      * cbn [removed_in]. unfold bind at 1.
        destruct (exec_op_normal (OpSubscribe cb) m) as [ids Hids].
        destruct (exec_op (OpSubscribe cb) m) as [r m1]. cbn [fst snd] in *.
        subst r. exact Hrun.
      * rewrite Hlen, exec_op_state. cbn [self slots_ subscribes].
        rewrite length_app. cbn [length]. lia.
    + pose proof (Event_unsubscribe_value id m) as Hval.
      rewrite exec_op_state in Hrun, Hlen |- *.
      destruct (Event_unsubscribe id m) as [r m1] eqn:Hunsub. cbn [fst snd] in *.
      subst r.
      exists (if bool_decide (id ∈ (slots_ (self m)).*1) then S k else k). split.
      * cbn [removed_in]. unfold bind at 1. rewrite Hunsub.
        unfold bind, ret. rewrite Hrun. reflexivity.
      * assert (Hm1 : m1 = (Event_unsubscribe id m).2) by (rewrite Hunsub; reflexivity).
        rewrite Event_unsubscribe_state in Hm1.
        assert (Hslots : slots_ (self m1) =
                  filter (λ s, s.1 ≠ id) (slots_ (self m))) by (rewrite Hm1; reflexivity).
        rewrite Hslots in Hlen. cbn [subscribes] in *.
        destruct (bool_decide (id ∈ (slots_ (self m)).*1)) eqn:Hdec.
        -- apply bool_decide_eq_true in Hdec.
           destruct Hinv as (_ & Hsorted & _).
           pose proof (filter_one_shorter id (slots_ (self m))
                         (sorted_ids_NoDup _ Hsorted) Hdec) as Hone.
           lia.
        -- apply bool_decide_eq_false in Hdec.
           rewrite filter_other_ids in Hlen by exact Hdec. lia.
Qed.

End CountFacts.

(** X6. Along a sequence of subscribe and unsubscribe calls on an event
    whose ids are in order, and as long as the counter does not reach
    [2 ^ 64], the number of entries goes up by one with every [subscribe]
    and down by one with every [unsubscribe] that returns true: at the
    end it is the number at the start plus the subscribe calls minus the
    successful unsubscribe calls. *)
Theorem X6_count_is_subscribes_minus_removals :
  ∀ (Args Callback World : Type) (ops : list (op Callback))
    (m : Machine Args Callback World),
    OpClear ∉ ops →
    ids_in_order (self m) →
    next_id_ (self m) + Z.of_nat (subscribes ops) < SizeT.modulus →
    ∃ removed m',
      removed_in ops m = (Normal removed, m') ∧
      m' = (run_ops ops m).2 ∧
      Event_subscriber_count m' =
        (Normal (Z.of_nat (length (slots_ (self m))) +
                 Z.of_nat (subscribes ops) - Z.of_nat removed), m').
Proof.
  intros Args Callback World ops m Hclear Hinv Hbound.
  destruct (removed_in_run ops m Hclear Hinv Hbound) as (k & Hrun & Hlen).
  exists k, (run_ops ops m).2. split; [exact Hrun|]. split; [reflexivity|].
  rewrite Event_subscriber_count_run. do 2 f_equal. lia.
Qed.

(** ** Tokens *)

Section TokenFacts.
Context {Args Callback World : Type}.

Local Abbreviation Sys := (Sys Args Callback World).

(** What [Subscription::unsubscribe] does in every case. *)
Lemma Subscription_unsubscribe_cases (s : Subscription) (sys : Sys) :
  Subscription_unsubscribe s sys = (Normal false, s, sys) ∨
  ∃ a ev,
    owner_ s = Some a ∧ objs sys !! a = Some ev ∧ id_ s ≠ 0 ∧
    Subscription_unsubscribe s sys =
      (Normal (bool_decide (id_ s ∈ (slots_ ev).*1)),
       mkSubscription None 0,
       mkSys (<[a := if bool_decide (id_ s ∈ (slots_ ev).*1)
                     then mkEvent (filter (λ x, x.1 ≠ id_ s) (slots_ ev))
                                  (next_id_ ev) (weak_this_ ev)
                     else ev]> (objs sys))
             (next_addr sys) (world sys) (deliveries sys)
             (removals sys ++ [(a, id_ s)])).
Proof.
  destruct (owner_ s) as [a|] eqn:Hown.
  - destruct (objs sys !! a) as [ev|] eqn:Hobj.
    + destruct (decide (id_ s = 0)) as [Hzero|Hid].
      * left. unfold Subscription_unsubscribe, weak_lock.
        rewrite Hown, Hobj, Hzero. reflexivity.
      * right. exists a, ev. split; [reflexivity|]. split; [exact Hobj|].
        split; [exact Hid|]. apply Subscription_unsubscribe_live; assumption.
    + left. apply Subscription_unsubscribe_no_owner.
      unfold weak_lock. rewrite Hown, Hobj. reflexivity.
  - left. apply Subscription_unsubscribe_no_owner.
    unfold weak_lock. rewrite Hown. reflexivity.
Qed.

End TokenFacts.


(** X9. A token that goes out of scope takes its entry with it: for an
    event owned by a [shared_ptr] whose counter is neither 0 nor the id
    of an entry, [subscribe(cb)] followed by the destruction of the
    returned token leaves the snapshot as it was before the [subscribe];
    the counter has moved on, and nothing else in the system has
    changed apart from the record of the one [Event::unsubscribe] call. *)
Theorem X9_scoped_subscription :
  ∀ (Args Callback World : Type) (cb : Callback)
    (sys : Sys Args Callback World) (a : nat) (ev : Event Callback),
    objs sys !! a = Some ev →
    weak_this_ ev = Some a →
    next_id_ ev ≠ 0 →
    next_id_ ev ∉ (slots_ ev).*1 →
    ∃ s sys1,
      call_via a (Event_subscribe cb) sys = Some (Normal s, sys1) ∧
      Subscription_bool s = true ∧
      Subscription_destroy s sys1 =
        (Normal tt,
         mkSys (<[a := mkEvent (slots_ ev) (SizeT.wrap (next_id_ ev + 1)) (Some a)]>
                  (objs sys))
               (next_addr sys) (world sys) (deliveries sys)
               (removals sys ++ [(a, next_id_ ev)])).
Proof.
  intros Args Callback World cb sys a ev Hobj Hweak Hid Hfresh.
  eexists _, _. split; [|split].
  - unfold call_via. rewrite Hobj. unfold call_on. rewrite Event_subscribe_run.
    cbn [self env delivered]. rewrite Hweak. reflexivity.
  - unfold Subscription_bool. cbn [id_]. apply Z.eqb_neq in Hid. rewrite Hid.
    reflexivity.
  - unfold Subscription_destroy.
    erewrite Subscription_unsubscribe_live;
      [| reflexivity | cbn [objs]; apply lookup_insert_eq | exact Hid].
    cbn [id_ slots_ next_id_ weak_this_ objs next_addr world deliveries removals].
    rewrite bool_decide_eq_true_2
      by (rewrite fmap_app; apply elem_of_app; right; left).
    rewrite filter_app, filter_other_ids by exact Hfresh.
    rewrite filter_cons_False by (cbn; intros H; apply H; reflexivity).
    rewrite filter_nil, app_nil_r, insert_insert_eq. reflexivity.
Qed.

(** X10. The id 0 is the value by which a token says it holds nothing.
    When the counter of an event is 0, [subscribe(cb)] adds the entry
    [(0, cb)] and returns a token whose [operator bool] is false and
    whose [unsubscribe()] and destructor return without changing
    anything: the token cannot take its entry out.  A direct call of
    [Event::unsubscribe(0)] finds the entry and returns true. *)
Theorem X10_token_with_id_zero_holds_nothing :
  ∀ (Args Callback World : Type) (cb : Callback)
    (sys : Sys Args Callback World) (a : nat) (ev : Event Callback),
    objs sys !! a = Some ev →
    weak_this_ ev = Some a →
    next_id_ ev = 0 →
    ∃ s sys1 ev1,
      call_via a (Event_subscribe cb) sys = Some (Normal s, sys1) ∧
      objs sys1 !! a = Some ev1 ∧
      slots_ ev1 = slots_ ev ++ [(0, cb)] ∧
      Subscription_bool s = false ∧
      Subscription_unsubscribe s sys1 = (Normal false, s, sys1) ∧
      Subscription_destroy s sys1 = (Normal tt, sys1) ∧
      (Event_unsubscribe 0
         (mkMachine ev1 (world sys1) (deliveries sys1))).1 = Normal true.
Proof.
  intros Args Callback World cb sys a ev Hobj Hweak Hzero.
  assert (Hcall : call_via a (Event_subscribe cb) sys =
            Some (Normal (mkSubscription (Some a) 0),
                  mkSys (<[a := mkEvent (slots_ ev ++ [(0, cb)]) (SizeT.wrap (0 + 1)) (Some a)]>
                           (objs sys))
                        (next_addr sys) (world sys) (deliveries sys) (removals sys))).
  { unfold call_via. rewrite Hobj. unfold call_on. rewrite Event_subscribe_run.
    cbn [self env delivered]. rewrite Hweak, Hzero. reflexivity. }
  eexists _, _, _. split; [exact Hcall|].
  split; [cbn [objs]; apply lookup_insert_eq|]. split; [reflexivity|].
  split; [reflexivity|].
  assert (Hunsub : ∀ st : Sys Args Callback World,
            is_Some (objs st !! a) →
            Subscription_unsubscribe (mkSubscription (Some a) 0) st =
              (Normal false, mkSubscription (Some a) 0, st)).
  { intros st [e He]. unfold Subscription_unsubscribe, weak_lock. cbn [owner_ id_].
    rewrite He. reflexivity. }
  split; [|split].
  - apply Hunsub. cbn [objs]. rewrite lookup_insert_eq. eexists; reflexivity.
  - unfold Subscription_destroy. rewrite Hunsub; [reflexivity|].
    cbn [objs]. rewrite lookup_insert_eq. eexists; reflexivity.
  - rewrite Event_unsubscribe_value. cbn [self slots_].
    rewrite bool_decide_eq_true_2; [reflexivity|].
    rewrite fmap_app. apply elem_of_app. right. left.
Qed.

Lemma filter_keeps_other_id {Callback : Type} (id x : Z) (l : SlotVec Callback) :
  x ≠ id → x ∈ l.*1 → x ∈ (filter (λ s, s.1 ≠ id) l).*1.
Proof.
  intros Hne Hx. apply list_elem_of_fmap in Hx as [s [-> Hs]].
  apply list_elem_of_fmap. exists s. split; [reflexivity|].
  apply list_elem_of_filter. split; [exact Hne | exact Hs].
Qed.

(** X11. Move assignment between two different tokens releases what the
    target held, by one [unsubscribe()], and then hands over what the
    source holds: afterwards the target holds the source's owner and id,
    the source holds nothing, no other token has changed, and the entry
    handed over is still in its event.  Assigning a token to itself
    changes nothing. *)
Theorem X11_move_assignment :
  ∀ (Args Callback World : Type) (this other : nat)
    (toks : gmap nat Subscription) (sys : Sys Args Callback World)
    (t o : Subscription),
    toks !! this = Some t → toks !! other = Some o →
    Subscription_move_assign this this toks sys = Some (Normal tt, toks, sys) ∧
    (this ≠ other →
     ∃ toks' sys',
       Subscription_move_assign this other toks sys = Some (Normal tt, toks', sys') ∧
       sys' = (Subscription_unsubscribe t sys).2 ∧
       toks' !! this = Some o ∧
       toks' !! other = Some (mkSubscription None 0) ∧
       (∀ p, p ≠ this → p ≠ other → toks' !! p = toks !! p) ∧
       (∀ b ev, owner_ o = Some b → objs sys !! b = Some ev →
                owner_ t ≠ Some b ∨ id_ t ≠ id_ o →
                id_ o ∈ (slots_ ev).*1 →
                ∃ ev', objs sys' !! b = Some ev' ∧ id_ o ∈ (slots_ ev').*1)).
Proof.
  intros Args Callback World this other toks sys t o Ht Ho. split.
  - unfold Subscription_move_assign. rewrite Ht.
    destruct (decide (this = this)) as [_|Hne]; [reflexivity | congruence].
  - intros Hne. unfold Subscription_move_assign. rewrite Ht, Ho.
    destruct (decide (this = other)) as [Heq|_]; [congruence|].
    destruct (Subscription_unsubscribe_cases t sys)
      as [Hnone | (a & ev & Hown & Hobj & Hid & Hlive)].
    + rewrite Hnone. eexists _, _. split; [reflexivity|].
      split; [reflexivity|]. split; [|split; [|split]].
      * rewrite lookup_insert_ne by (intros Heq; apply Hne; symmetry; exact Heq).
        rewrite lookup_insert_eq. destruct o; reflexivity.
      * apply lookup_insert_eq.
      * intros p Hp1 Hp2.
        rewrite !lookup_insert_ne by (intros Heq; subst; congruence). reflexivity.
      * intros b evo _ Hb _ Hin. exists evo. split; [exact Hb | exact Hin].
    + rewrite Hlive. eexists _, _. split; [reflexivity|].
      split; [reflexivity|]. split; [|split; [|split]].
      * rewrite lookup_insert_ne by (intros Heq; apply Hne; symmetry; exact Heq).
        rewrite lookup_insert_eq. destruct o; reflexivity.
      * apply lookup_insert_eq.
      * intros p Hp1 Hp2.
        rewrite !lookup_insert_ne by (intros Heq; subst; congruence). reflexivity.
      * intros b evo Hob Hb Hdiff Hin. cbn [objs].
        destruct (decide (a = b)) as [<-|Hab].
        -- rewrite lookup_insert_eq. rewrite Hobj in Hb. injection Hb as <-.
           assert (Hids : id_ o ≠ id_ t).
           { destruct Hdiff as [Hd|Hd]; [congruence|]. intros Heq. apply Hd. symmetry. exact Heq. }
           eexists. split; [reflexivity|].
           destruct (bool_decide (id_ t ∈ (slots_ ev).*1)); [|exact Hin].
           cbn [slots_]. apply filter_keeps_other_id; assumption.
        -- rewrite lookup_insert_ne by exact Hab.
           exists evo. split; [exact Hb | exact Hin].
Qed.

(** ** The bus, topic by topic *)

Section TopicFacts.
Context {Args Callback World : Type}.

Local Abbreviation Sys := (Sys Args Callback World).

Lemma topic_slots_known (topic : string) (bus : EventBus) (sys : Sys)
    (a : nat) (ev : Event Callback) :
  channels_ bus !! topic = Some (Some a) → objs sys !! a = Some ev →
  topic_slots topic bus sys = slots_ ev.
Proof. intros Hch Hobj. unfold topic_slots. rewrite Hch, Hobj. reflexivity. Qed.

Lemma topic_slots_unknown (topic : string) (bus : EventBus) (sys : Sys) :
  channels_ bus !! topic = None → topic_slots topic bus sys = [].
Proof. intros Hch. unfold topic_slots. rewrite Hch. reflexivity. Qed.

(** [subscribe] on a topic that has a channel. *)
Lemma EventBus_subscribe_known (topic : string) (cb : Callback)
    (bus : EventBus) (sys : Sys) (a : nat) (ev : Event Callback) :
  channels_ bus !! topic = Some (Some a) → objs sys !! a = Some ev →
  EventBus_subscribe topic cb bus sys =
  Some (Normal (mkSubscription (weak_this_ ev) (next_id_ ev)),
        mkEventBus (channels_ bus),
        mkSys (<[a := mkEvent (slots_ ev ++ [(next_id_ ev, cb)])
                              (SizeT.wrap (next_id_ ev + 1)) (weak_this_ ev)]>
                 (objs sys))
              (next_addr sys) (world sys) (deliveries sys) (removals sys)).
Proof.
  intros Hch Hobj. unfold EventBus_subscribe. rewrite Hch.
  cbv beta iota zeta. rewrite Hch.
  cbv beta iota zeta delta [default from_option id].
  unfold call_via. rewrite Hobj. unfold call_on. rewrite Event_subscribe_run.
  reflexivity.
Qed.

(** [subscribe] on a topic that has no channel yet. *)
Lemma EventBus_subscribe_unknown (topic : string) (cb : Callback)
    (bus : EventBus) (sys : Sys) :
  channels_ bus !! topic = None →
  EventBus_subscribe topic cb bus sys =
  Some (Normal (mkSubscription (Some (next_addr sys)) 1),
        mkEventBus (<[topic := Some (next_addr sys)]> (channels_ bus)),
        mkSys (<[next_addr sys := mkEvent [(1, cb)] (SizeT.wrap (1 + 1))
                                          (Some (next_addr sys))]>
                 (objs sys))
              (S (next_addr sys)) (world sys) (deliveries sys) (removals sys)).
Proof.
  intros Hch. unfold EventBus_subscribe. rewrite Hch.
  cbv beta iota zeta. rewrite lookup_insert_eq.
  cbv beta iota zeta delta [default from_option id make_shared_Event].
  unfold call_via. cbn [objs]. rewrite lookup_insert_eq. unfold call_on.
  rewrite Event_subscribe_run.
  cbn [self env delivered slots_ next_id_ weak_this_ Event_new world deliveries
       next_addr removals objs app].
  rewrite !insert_insert_eq. reflexivity.
Qed.

Lemma EventBus_subscribe_wf (topic : string) (cb : Callback)
    (bus : EventBus) (sys : Sys) :
  bus_wf bus sys →
  ∃ s bus' sys' a,
    EventBus_subscribe topic cb bus sys = Some (Normal s, bus', sys') ∧
    bus_wf bus' sys' ∧
    channels_ bus' !! topic = Some (Some a) ∧
    owner_ s = Some a ∧
    (channels_ bus !! topic = Some (Some a) ∧ next_addr sys' = next_addr sys ∨
     channels_ bus !! topic = None ∧ a = next_addr sys ∧
     next_addr sys' = S (next_addr sys)) ∧
    topic_slots topic bus' sys' = topic_slots topic bus sys ++ [(id_ s, cb)] ∧
    (∀ t, t ≠ topic →
          channels_ bus' !! t = channels_ bus !! t ∧
          topic_slots t bus' sys' = topic_slots t bus sys) ∧
    (∀ b, b ≠ a → objs sys' !! b = objs sys !! b) ∧
    world sys' = world sys ∧ deliveries sys' = deliveries sys ∧
    removals sys' = removals sys.
Proof.
  intros (Hfresh & Hself & Hinj).
  destruct (channels_ bus !! topic) as [p|] eqn:Hch.
  - destruct (Hself topic p Hch) as (a & ev & -> & Hobj & Hweak).
    rewrite (EventBus_subscribe_known topic cb bus sys a ev Hch Hobj).
    eexists _, _, _, a. split; [reflexivity|]. cbn [channels_ owner_ id_].
    split; [|split; [exact Hch|split; [exact Hweak|split; [left; split; [reflexivity|reflexivity]|]]]].
    + split; [|split].
      * intros b Hb. cbn [objs next_addr] in *. apply Hfresh.
        destruct (decide (a = b)) as [<-|Hab]; [rewrite Hobj; eexists; reflexivity|].
        rewrite lookup_insert_ne in Hb by exact Hab. exact Hb.
      * intros t p Hp. cbn [channels_] in Hp.
        destruct (Hself t p Hp) as (a2 & ev2 & -> & Hobj2 & Hweak2).
        cbn [objs]. destruct (decide (a = a2)) as [<-|Hab].
        -- eexists a, _. split; [reflexivity|]. split; [apply lookup_insert_eq|].
           exact Hweak.
        -- exists a2, ev2. split; [reflexivity|].
           split; [rewrite lookup_insert_ne by exact Hab; exact Hobj2 | exact Hweak2].
      * exact Hinj.
    + split; [|split; [|split; [|split; [reflexivity | split; reflexivity]]]].
      * rewrite (topic_slots_known topic bus sys a ev Hch Hobj).
        unfold topic_slots. cbn [channels_ objs]. rewrite Hch, lookup_insert_eq.
        reflexivity.
      * intros t Ht. split; [reflexivity|].
        unfold topic_slots. cbn [channels_ objs].
        destruct (channels_ bus !! t) as [[a2|]|] eqn:Hch2; try reflexivity.
        rewrite lookup_insert_ne; [reflexivity|].
        intros <-. apply Ht. exact (Hinj t topic a Hch2 Hch).
      * intros b Hb. cbn [objs]. apply lookup_insert_ne.
        intros Heq. apply Hb. symmetry. exact Heq.
  - rewrite (EventBus_subscribe_unknown topic cb bus sys Hch).
    assert (Hnew : objs sys !! next_addr sys = None).
    { destruct (objs sys !! next_addr sys) as [e|] eqn:He; [|reflexivity].
      assert (next_addr sys < next_addr sys)%nat
        by (apply Hfresh; rewrite He; eexists; reflexivity). lia. }
    assert (Hother : ∀ t a2, channels_ bus !! t = Some (Some a2) → a2 ≠ next_addr sys).
    { intros t a2 Ht Heq. destruct (Hself t _ Ht) as (a3 & ev3 & Ha3 & Hobj3 & _).
      injection Ha3 as <-. rewrite Heq, Hnew in Hobj3. discriminate. }
    eexists _, _, _, (next_addr sys). split; [reflexivity|].
    cbn [channels_ owner_ id_].
    split; [|split; [apply lookup_insert_eq|split; [reflexivity|split;
      [right; split; [reflexivity|split; reflexivity]|]]]].
    + split; [|split].
      * intros b Hb. cbn [objs next_addr] in *.
        destruct (decide (next_addr sys = b)) as [<-|Hab]; [lia|].
        rewrite lookup_insert_ne in Hb by exact Hab. apply Hfresh in Hb. lia.
      * intros t p Hp. cbn [channels_] in Hp. cbn [objs].
        destruct (decide (topic = t)) as [<-|Hne].
        -- rewrite lookup_insert_eq in Hp. injection Hp as <-.
           eexists _, _. split; [reflexivity|].
           split; [apply lookup_insert_eq | reflexivity].
        -- rewrite lookup_insert_ne in Hp by exact Hne.
           destruct (Hself t p Hp) as (a2 & ev2 & -> & Hobj2 & Hweak2).
           exists a2, ev2. split; [reflexivity|]. split; [|exact Hweak2].
           rewrite lookup_insert_ne; [exact Hobj2|].
           intros Heq. exact (Hother t a2 Hp (eq_sym Heq)).
      * intros t1 t2 a2 H1 H2. cbn [channels_] in H1, H2.
        destruct (decide (topic = t1)) as [<-|Hne1];
          destruct (decide (topic = t2)) as [<-|Hne2]; [reflexivity| | |].
        -- rewrite lookup_insert_eq in H1. injection H1 as <-.
           rewrite lookup_insert_ne in H2 by exact Hne2.
           exfalso. exact (Hother t2 _ H2 eq_refl).
        -- rewrite lookup_insert_eq in H2. injection H2 as <-.
           rewrite lookup_insert_ne in H1 by exact Hne1.
           exfalso. exact (Hother t1 _ H1 eq_refl).
        -- rewrite lookup_insert_ne in H1 by exact Hne1.
           rewrite lookup_insert_ne in H2 by exact Hne2.
           exact (Hinj t1 t2 a2 H1 H2).
    + split; [|split; [|split; [|split; [reflexivity | split; reflexivity]]]].
      * rewrite (topic_slots_unknown topic bus sys Hch).
        unfold topic_slots. cbn [channels_ objs]. rewrite !lookup_insert_eq.
        reflexivity.
      * intros t Ht. cbn [channels_].
        rewrite lookup_insert_ne by (intros Heq; apply Ht; symmetry; exact Heq).
        split; [reflexivity|]. unfold topic_slots. cbn [channels_ objs].
        rewrite lookup_insert_ne by (intros Heq; apply Ht; symmetry; exact Heq).
        destruct (channels_ bus !! t) as [[a2|]|] eqn:Hch2; try reflexivity.
        rewrite lookup_insert_ne; [reflexivity|].
        intros Heq. exact (Hother t a2 Hch2 (eq_sym Heq)).
      * intros b Hb. cbn [objs]. apply lookup_insert_ne.
        intros Heq. apply Hb. symmetry. exact Heq.
Qed.

End TopicFacts.

Section TopicRuns.
Context {Args Callback World : Type}.

Local Abbreviation Sys := (Sys Args Callback World).

Lemma EventBus_publish_wf
    (invoke : Callback → Args → Event Callback → World →
              Event Callback * World * outcome)
    (topic : string) (args : Args) (bus : EventBus) (sys : Sys) :
  bus_wf bus sys →
  ∃ sys',
    EventBus_publish invoke topic args bus sys = Some (Normal tt, bus, sys') ∧
    deliveries sys' =
      deliveries sys ++ map (λ s, (s, args)) (topic_slots topic bus sys) ∧
    (∀ b, channels_ bus !! topic ≠ Some (Some b) →
          objs sys' !! b = objs sys !! b) ∧
    (∀ b, is_Some (objs sys' !! b) ↔ is_Some (objs sys !! b)) ∧
    next_addr sys' = next_addr sys ∧ removals sys' = removals sys.
Proof.
  intros (Hfresh & Hself & Hinj).
  destruct (channels_ bus !! topic) as [p|] eqn:Hch.
  - destruct (Hself topic p Hch) as (a & ev & -> & Hobj & Hweak).
    rewrite (topic_slots_known topic bus sys a ev Hch Hobj).
    unfold EventBus_publish, call_via, call_on.
    rewrite Hch, Hobj, Event_publish_run. cbn [self].
    eexists. split; [reflexivity|]. cbn [deliveries objs next_addr removals].
    split; [apply delivered_fold|]. split; [|split; [|split; reflexivity]].
    + intros b Hb. apply lookup_insert_ne. intros ->. apply Hb. reflexivity.
    + intros b. destruct (decide (a = b)) as [<-|Hab].
      * rewrite lookup_insert_eq, Hobj. split; intros _; eexists; reflexivity.
      * rewrite lookup_insert_ne by exact Hab. reflexivity.
  - rewrite (topic_slots_unknown topic bus sys Hch).
    unfold EventBus_publish. rewrite Hch. exists sys.
    split; [reflexivity|]. cbn [map]. rewrite app_nil_r.
    split; [reflexivity|]. split; [intros b _; reflexivity|].
    split; [intros b; reflexivity|]. split; reflexivity.
Qed.

(** With callbacks that act on the world only, [publish] leaves the
    events as they are. *)
Lemma EventBus_publish_external
    (f : Callback → Args → World → World * outcome)
    (topic : string) (args : Args) (bus : EventBus) (sys : Sys) :
  bus_wf bus sys →
  ∃ sys',
    EventBus_publish (external f) topic args bus sys = Some (Normal tt, bus, sys') ∧
    objs sys' = objs sys ∧ next_addr sys' = next_addr sys.
Proof.
  intros (Hfresh & Hself & Hinj).
  destruct (channels_ bus !! topic) as [p|] eqn:Hch.
  - destruct (Hself topic p Hch) as (a & ev & -> & Hobj & Hweak).
    unfold EventBus_publish, call_via, call_on.
    rewrite Hch, Hobj, Event_publish_run. cbn [self].
    eexists. split; [reflexivity|]. cbn [objs next_addr]. split; [|reflexivity].
    rewrite self_fold by (intros s e w _; reflexivity).
    cbn [self]. apply insert_id, Hobj.
  - unfold EventBus_publish. rewrite Hch. exists sys. repeat split; reflexivity.
Qed.

Lemma EventBus_subsriber_count_wf (topic : string) (bus : EventBus) (sys : Sys) :
  bus_wf bus sys →
  EventBus_subsriber_count topic bus sys =
  Some (Normal (Z.of_nat (length (topic_slots topic bus sys))), bus, sys).
Proof.
  intros (Hfresh & Hself & Hinj).
  destruct (channels_ bus !! topic) as [p|] eqn:Hch.
  - destruct (Hself topic p Hch) as (a & ev & -> & Hobj & Hweak).
    rewrite (topic_slots_known topic bus sys a ev Hch Hobj).
    unfold EventBus_subsriber_count, call_via, call_on.
    rewrite Hch, Hobj, Event_subscriber_count_run. cbn [self env delivered].
    rewrite insert_id by exact Hobj. destruct sys; reflexivity.
  - rewrite (topic_slots_unknown topic bus sys Hch).
    unfold EventBus_subsriber_count. rewrite Hch. reflexivity.
Qed.

Lemma bus_wf_same_objs (bus : EventBus) (sys sys' : Sys) :
  objs sys' = objs sys → next_addr sys' = next_addr sys →
  bus_wf bus sys → bus_wf bus sys'.
Proof.
  intros Hobjs Hnext (Hfresh & Hself & Hinj). split; [|split; [|exact Hinj]].
  - intros a Ha. rewrite Hobjs in Ha. rewrite Hnext. apply Hfresh, Ha.
  - intros t p Hp. destruct (Hself t p Hp) as (a & ev & -> & Hobj & Hweak).
    exists a, ev. rewrite Hobjs. split; [reflexivity|]. split; assumption.
Qed.

Lemma topic_slots_same_objs (t : string) (bus : EventBus) (sys sys' : Sys) :
  objs sys' = objs sys → topic_slots t bus sys' = topic_slots t bus sys.
Proof. intros Hobjs. unfold topic_slots. rewrite Hobjs. reflexivity. Qed.

(** Along a sequence of calls on a bus in good order, with callbacks that
    act on the world only, every topic gains one subscriber with each
    [subscribe] for it, and nothing else changes its subscribers. *)
Lemma run_bus_counts
    (f : Callback → Args → World → World * outcome)
    (ops : list (bus_op Args Callback)) (bus : EventBus) (sys : Sys) :
  bus_wf bus sys →
  ∃ bus' sys',
    run_bus (external f) ops bus sys = Some (bus', sys') ∧
    bus_wf bus' sys' ∧
    ∀ t, length (topic_slots t bus' sys') =
         (length (topic_slots t bus sys) + subscribes_on t ops)%nat.
Proof.
  revert bus sys. induction ops as [|o ops IH]; intros bus sys Hwf.
  - exists bus, sys. split; [reflexivity|]. split; [exact Hwf|].
    intros t. cbn. lia.
  - destruct o as [topic cb|topic args|topic]; cbn [run_bus exec_bus_op subscribes_on].
    + destruct (EventBus_subscribe_wf topic cb bus sys Hwf)
        as (s & bus1 & sys1 & a & Hsub & Hwf1 & _ & _ & _ & Hslots & Hothers & _).
      rewrite Hsub.
      destruct (IH bus1 sys1 Hwf1) as (bus2 & sys2 & Hrun & Hwf2 & Hcount).
      exists bus2, sys2. split; [exact Hrun|]. split; [exact Hwf2|].
      intros t. rewrite Hcount.
      destruct (decide (topic = t)) as [<-|Hne].
      * rewrite Hslots, length_app. cbn [length]. lia.
      * destruct (Hothers t) as [_ Hsame]; [intros Heq; apply Hne; symmetry; exact Heq|].
        rewrite Hsame. lia.
    + destruct (EventBus_publish_external f topic args bus sys Hwf)
        as (sys1 & Hpub & Hobjs & Hnext).
      rewrite Hpub.
      destruct (IH bus sys1 (bus_wf_same_objs bus sys sys1 Hobjs Hnext Hwf))
        as (bus2 & sys2 & Hrun & Hwf2 & Hcount).
      exists bus2, sys2. split; [exact Hrun|]. split; [exact Hwf2|].
      intros t. rewrite Hcount, (topic_slots_same_objs t bus sys sys1 Hobjs).
      reflexivity.
    + rewrite (EventBus_subsriber_count_wf topic bus sys Hwf).
      destruct (IH bus sys Hwf) as (bus2 & sys2 & Hrun & Hwf2 & Hcount).
      exists bus2, sys2. split; [exact Hrun|]. split; [exact Hwf2|]. exact Hcount.
Qed.

End TopicRuns.

(** X12. [EventBus::subscribe] on a bus in good order makes a channel
    for the topic when there is none, at a new address, and uses the one
    there is otherwise.  Either way the topic gains the one subscriber
    [(id, cb)] at the end of its list, the returned token refers to the
    channel of the topic, the other topics keep their channels and their
    subscribers, no event other than the topic's changes, no callback is
    called, and the bus is in good order again. *)
Theorem X12_bus_subscribe_makes_or_reuses_channel :
  ∀ (Args Callback World : Type) (topic : string) (cb : Callback)
    (bus : EventBus) (sys : Sys Args Callback World),
    bus_wf bus sys →
    ∃ s bus' sys' a,
      EventBus_subscribe topic cb bus sys = Some (Normal s, bus', sys') ∧
      bus_wf bus' sys' ∧
      channels_ bus' !! topic = Some (Some a) ∧
      owner_ s = Some a ∧
      (channels_ bus !! topic = Some (Some a) ∧ next_addr sys' = next_addr sys ∨
       channels_ bus !! topic = None ∧ a = next_addr sys ∧
       next_addr sys' = S (next_addr sys)) ∧
      topic_slots topic bus' sys' = topic_slots topic bus sys ++ [(id_ s, cb)] ∧
      (∀ t, t ≠ topic →
            channels_ bus' !! t = channels_ bus !! t ∧
            topic_slots t bus' sys' = topic_slots t bus sys) ∧
      (∀ b, b ≠ a → objs sys' !! b = objs sys !! b) ∧
      world sys' = world sys ∧ deliveries sys' = deliveries sys ∧
      removals sys' = removals sys.
Proof. intros Args Callback World. apply EventBus_subscribe_wf. Qed.

(** X13. On a bus in good order, and with callbacks that act on their
    own channel and on the world (not on the bus or on other channels),
    [EventBus::publish] returns normally and calls the entries of the
    channel of the topic, once each, in their order, with the given
    arguments, and no entry of another topic; for a topic without channel
    it calls nobody. *)
Theorem X13_bus_publish_reaches_the_topic_only :
  ∀ (Args Callback World : Type)
    (invoke : Callback → Args → Event Callback → World →
              Event Callback * World * outcome)
    (topic : string) (args : Args) (bus : EventBus)
    (sys : Sys Args Callback World),
    bus_wf bus sys →
    ∃ sys',
      EventBus_publish invoke topic args bus sys = Some (Normal tt, bus, sys') ∧
      deliveries sys' =
        deliveries sys ++ map (λ s, (s, args)) (topic_slots topic bus sys).
Proof.
  intros Args Callback World invoke topic args bus sys Hwf.
  destruct (EventBus_publish_wf invoke topic args bus sys Hwf)
    as (sys' & Hpub & Hdel & _).
  exists sys'. split; [exact Hpub | exact Hdel].
Qed.

(** X14. On a new bus, after any sequence of subscribe, publish and
    count calls with callbacks that act on the world only,
    [subsriber_count(topic)] returns the number of [subscribe] calls made
    for that topic (0 for a topic never subscribed to) and changes
    nothing. *)
Theorem X14_bus_count_is_number_of_subscribes :
  ∀ (Args Callback World : Type)
    (f : Callback → Args → World → World * outcome)
    (ops : list (bus_op Args Callback)) (sys0 : Sys Args Callback World)
    (topic : string),
    store_fresh sys0 →
    ∃ bus sys,
      run_bus (external f) ops EventBus_new sys0 = Some (bus, sys) ∧
      EventBus_subsriber_count topic bus sys =
        Some (Normal (Z.of_nat (subscribes_on topic ops)), bus, sys).
Proof.
  intros Args Callback World f ops sys0 topic Hfresh.
  assert (Hwf0 : bus_wf EventBus_new sys0).
  { split; [exact Hfresh|]. split.
    - intros t p Hp. cbn in Hp. rewrite lookup_empty in Hp. discriminate.
    - intros t1 t2 a Ht. cbn in Ht. rewrite lookup_empty in Ht. discriminate. }
  destruct (run_bus_counts f ops EventBus_new sys0 Hwf0)
    as (bus & sys & Hrun & Hwf & Hcount).
  exists bus, sys. split; [exact Hrun|].
  rewrite (EventBus_subsriber_count_wf topic bus sys Hwf), Hcount.
  rewrite (topic_slots_unknown topic EventBus_new sys0) by apply lookup_empty.
  reflexivity.
Qed.

(** ** [main] *)

Lemma main_setup_run :
  main_setup =
  Some (0%nat, mkSubscription (Some 0%nat) 1, mkSubscription (Some 0%nat) 2,
        mkSys {[ 0%nat := mkEvent [(1, cb_A); (2, cb_B)] 3 (Some 0%nat) ]}
              1%nat [] [] []).
Proof. vm_compute. reflexivity. Qed.

(** Publishing to A and B writes a line for A and a line for B and
    leaves the events as they are. *)
Lemma publish_each_run (published : list Z)
    (os : gmap nat (Event Printer)) (n : nat) (out : Output)
    (d : list (Slot Printer * Z)) (r : list (nat * Z)) :
  os !! 0%nat = Some (mkEvent [(1, cb_A); (2, cb_B)] 3 (Some 0%nat)) →
  ∃ d',
    publish_each 0 published (mkSys os n out d r) =
    Some (mkSys os n (out ++ flat_map (λ v, [("A", v); ("B", v)]) published) d' r).
Proof.
  revert out d. induction published as [|v rest IH]; intros out d Hobj.
  - exists d. cbn. rewrite app_nil_r. reflexivity.
  - cbn [publish_each]. unfold call_via. cbn [objs]. rewrite Hobj.
    unfold call_on. rewrite Event_publish_run.
    cbn [self slots_ fold_left deliver_one call_slot print snd fst env delivered
         world deliveries next_addr removals objs label fails cb_A cb_B].
    rewrite insert_id by exact Hobj.
    destruct (IH ((out ++ [("A", v)]) ++ [("B", v)])
                 ((d ++ [((1, cb_A), v)]) ++ [((2, cb_B), v)]) Hobj) as [d' Hrun].
    exists d'. etransitivity; [exact Hrun|].
    cbn [flat_map]. rewrite <- !app_assoc. reflexivity.
Qed.

(** X15. In the first part of [main], whatever the order of the publish
    calls of the two threads, the output up to [ev->publish(42)] is a
    line for A and a line for B for each published value, followed by the
    one line of B for 42: as the source says, only B receives it.  At
    that point the token of A holds nothing, the token of B is still
    active, and [Event::unsubscribe] has been called once, for the id of
    A. *)
Theorem X15_main_only_B_receives_42 :
  ∀ published : list Z,
    ∃ s1 s2 sys,
      main_event_part published = Some (s1, s2, sys) ∧
      world sys =
        flat_map (λ v, [("A", v); ("B", v)]) published ++ [("B", 42)] ∧
      Subscription_bool s1 = false ∧
      Subscription_bool s2 = true ∧
      removals sys = [(0%nat, 1)] ∧
      objs sys !! 0%nat = Some (mkEvent [(2, cb_B)] 3 (Some 0%nat)).
Proof.
  intros published. unfold main_event_part. rewrite main_setup_run.
  cbv beta iota zeta.
  match goal with |- context [publish_each 0 published (mkSys ?os ?n ?w ?d ?r)] =>
    destruct (publish_each_run published os n w d r) as [d' Hrun];
      [apply lookup_singleton_eq|];
    assert (Hrun' : publish_each 0 published (mkSys os n w d r) =
              Some (mkSys os n
                      (w ++ flat_map (λ v, [("A", v); ("B", v)]) published) d' r))
      by exact Hrun
  end.
  rewrite Hrun'. cbv beta iota zeta.
  erewrite Subscription_unsubscribe_live;
    [| reflexivity | cbn [objs]; apply lookup_singleton_eq | cbn; lia].
  cbv beta iota zeta.
  unfold call_via. cbn [objs]. rewrite lookup_insert_eq.
  unfold call_on. rewrite Event_publish_run.
  eexists _, _, _. split; [reflexivity|].
  split; [reflexivity|]. split; [reflexivity|]. split; [reflexivity|].
  split; [reflexivity|]. cbn [objs]. rewrite lookup_insert_eq. reflexivity.
Qed.

(** ** The further properties at work *)

Lemma X2_witness :
  (4 ∉ [1; 2; 3]) ∧
  (s <- Event_subscribe cb_B ;; Event_unsubscribe (id_ s))%event busy_machine =
    (Normal true,
     mkMachine (mkEvent [(1, cb_A); (2, cb_X); (3, cb_B)] 5 (Some 0%nat)) [] []).
Proof.
  assert (Hfresh : next_id_ (self busy_machine) ∉ (slots_ (self busy_machine)).*1).
  { apply (bool_decide_unpack _). vm_compute. exact I. }
  split; [exact Hfresh|].
  exact (X2_subscribe_then_unsubscribe Z Printer Output cb_B busy_machine Hfresh).
Defined.

Lemma X5_witness :
  ids_in_order (self fresh_machine) ∧
  NoDup (slots_ (self (run_ops [OpSubscribe cb_A; OpSubscribe cb_B; OpUnsubscribe 1]
                               fresh_machine).2)).*1.
Proof.
  assert (Hinv : ids_in_order (self fresh_machine)).
  { split; [cbn; lia|]. split; constructor. }
  split; [exact Hinv|].
  destruct (X5_ids_stay_in_order Z Printer Output) as [_ Hkeep].
  destruct (Hkeep [OpSubscribe cb_A; OpSubscribe cb_B; OpUnsubscribe 1]
                  fresh_machine Hinv) as (_ & Hnodup & _).
  - cbn. rewrite modulus_value. lia.
  - exact Hnodup.
Defined.

Lemma X6_witness :
  ∃ m',
    removed_in [OpSubscribe cb_A; OpSubscribe cb_B; OpUnsubscribe 1; OpUnsubscribe 7]
               fresh_machine = (Normal 1%nat, m') ∧
    Event_subscriber_count m' = (Normal 1, m').
Proof.
  assert (Hinv : ids_in_order (self fresh_machine)).
  { split; [cbn; lia|]. split; constructor. }
  destruct (X6_count_is_subscribes_minus_removals Z Printer Output
              [OpSubscribe cb_A; OpSubscribe cb_B; OpUnsubscribe 1; OpUnsubscribe 7]
              fresh_machine) as (removed & m' & Hrun & Hm' & Hcount).
  - intros Hin. repeat (apply elem_of_cons in Hin as [Hin|Hin]; [discriminate|]).
    inversion Hin.
  - exact Hinv.
  - cbn. rewrite modulus_value. lia.
  - assert (Hremoved : removed = 1%nat).
    { assert (Hval : removed_in
                [OpSubscribe cb_A; OpSubscribe cb_B; OpUnsubscribe 1; OpUnsubscribe 7]
                fresh_machine =
              (Normal 1%nat,
               (run_ops [OpSubscribe cb_A; OpSubscribe cb_B; OpUnsubscribe 1;
                         OpUnsubscribe 7] fresh_machine).2)) by reflexivity.
      rewrite Hval in Hrun. congruence. }
    subst removed. exists m'. split; [exact Hrun | exact Hcount].
Defined.


Lemma X9_witness :
  ∃ s sys1 sys2,
    call_via 0%nat (Event_subscribe cb_B) busy_sys = Some (Normal s, sys1) ∧
    Subscription_destroy s sys1 = (Normal tt, sys2) ∧
    objs sys2 !! 0%nat =
      Some (mkEvent [(1, cb_A); (2, cb_X); (3, cb_B)] 5 (Some 0%nat)).
Proof.
  destruct (X9_scoped_subscription Z Printer Output cb_B busy_sys 0%nat
              (self busy_machine)) as (s & sys1 & Hcall & _ & Hdestroy).
  - vm_compute. reflexivity.
  - reflexivity.
  - cbn. lia.
  - apply (bool_decide_unpack _). vm_compute. exact I.
  - eexists s, sys1, _. split; [exact Hcall|]. split; [exact Hdestroy|].
    cbn [objs]. rewrite lookup_insert_eq. reflexivity.
Defined.

Lemma X10_witness :
  ∃ s sys1,
    call_via 0%nat (Event_subscribe cb_B) wrapped_sys = Some (Normal s, sys1) ∧
    Subscription_bool s = false ∧
    Subscription_unsubscribe s sys1 = (Normal false, s, sys1).
Proof.
  destruct (X10_token_with_id_zero_holds_nothing Z Printer Output cb_B wrapped_sys
              0%nat (mkEvent [(SizeT.modulus - 1, cb_A)] 0 (Some 0%nat)))
    as (s & sys1 & ev1 & Hcall & _ & _ & Hbool & Hunsub & _).
  - apply lookup_singleton_eq.
  - reflexivity.
  - reflexivity.
  - exists s, sys1. split; [exact Hcall|]. split; [exact Hbool | exact Hunsub].
Defined.

Lemma X11_witness :
  ∃ toks' sys',
    Subscription_move_assign 0 1 two_tokens busy_sys = Some (Normal tt, toks', sys') ∧
    toks' !! 0%nat = Some (mkSubscription (Some 0%nat) 3) ∧
    toks' !! 1%nat = Some (mkSubscription None 0) ∧
    ∃ ev', objs sys' !! 0%nat = Some ev' ∧ 3 ∈ (slots_ ev').*1.
Proof.
  destruct (X11_move_assignment Z Printer Output 0%nat 1%nat two_tokens busy_sys
              token_A (mkSubscription (Some 0%nat) 3)) as [_ Hmove].
  - vm_compute. reflexivity.
  - vm_compute. reflexivity.
  - destruct Hmove as (toks' & sys' & Hrun & _ & Hthis & Hother & _ & Hkept);
      [discriminate|].
    exists toks', sys'. split; [exact Hrun|]. split; [exact Hthis|].
    split; [exact Hother|].
    apply (Hkept 0%nat (self busy_machine)).
    + reflexivity.
    + vm_compute. reflexivity.
    + right. cbn. lia.
    + apply (bool_decide_unpack _). vm_compute. exact I.
Defined.

Lemma empty_sys_bus_wf : bus_wf EventBus_new empty_sys.
Proof.
  split; [|split].
  - intros a [e He]. cbn in He. rewrite lookup_empty in He. discriminate.
  - intros t p Hp. cbn in Hp. rewrite lookup_empty in Hp. discriminate.
  - intros t1 t2 a Ht. cbn in Ht. rewrite lookup_empty in Ht. discriminate.
Qed.

Lemma X12_witness :
  ∃ s bus' sys',
    EventBus_subscribe "cpu" cb_A EventBus_new empty_sys = Some (Normal s, bus', sys') ∧
    channels_ bus' !! "cpu" = Some (Some 0%nat) ∧
    topic_slots "cpu" bus' sys' = [(id_ s, cb_A)].
Proof.
  destruct (X12_bus_subscribe_makes_or_reuses_channel Z Printer Output "cpu" cb_A
              EventBus_new empty_sys empty_sys_bus_wf)
    as (s & bus' & sys' & a & Hsub & _ & Hch & _ & [[Hold _]|(_ & -> & _)] & Hslots & _).
  - cbn in Hold. rewrite lookup_empty in Hold. discriminate.
  - exists s, bus', sys'. split; [exact Hsub|]. split; [exact Hch | exact Hslots].
Defined.

Lemma X13_witness :
  ∃ bus sys sys',
    run_bus (external say) cpu_gpu_calls EventBus_new empty_sys = Some (bus, sys) ∧
    EventBus_publish (external say) "cpu" 5 bus sys = Some (Normal tt, bus, sys') ∧
    deliveries sys' = [((1, cb_A), 5); ((2, cb_B), 5)].
Proof.
  destruct (run_bus_counts say cpu_gpu_calls EventBus_new empty_sys empty_sys_bus_wf)
    as (bus & sys & Hrun & Hwf & _).
  pose proof Hrun as Hval. vm_compute in Hval. injection Hval as <- <-.
  destruct (X13_bus_publish_reaches_the_topic_only Z Printer Output (external say)
              "cpu" 5 _ _ Hwf) as (sys' & Hpub & Hdel).
  eexists _, _, sys'. split; [exact Hrun|]. split; [exact Hpub|].
  rewrite Hdel. vm_compute. reflexivity.
Defined.

Lemma X14_witness :
  ∃ bus sys,
    run_bus (external say) bus_calls EventBus_new empty_sys = Some (bus, sys) ∧
    EventBus_subsriber_count "cpu" bus sys = Some (Normal 2, bus, sys).
Proof.
  destruct (X14_bus_count_is_number_of_subscribes Z Printer Output say bus_calls
              empty_sys "cpu") as (bus & sys & Hrun & Hcount).
  - intros a [e He]. cbn in He. rewrite lookup_empty in He. discriminate.
  - exists bus, sys. split; [exact Hrun | exact Hcount].
Defined.
